(** * A contact book with birthdays: the model of [task.py] and its properties

    The development embeds the classes [Field], [Name], [Phone], [Birthday],
    [Record] and [AddressBook] of [task.py], the command handlers with their
    [input_error] decorator and the command loop, and proves the properties
    of the specification about them.

    Conventions of the embedding.
    - A Python [str] is a Rocq [string], one [ascii] per character: the
      strings of the model are those whose code points are below U+0100.  On
      these the class [\d] of [re] and the digits of [int] are exactly
      [0-9].  A string with a character from U+0100 on (the digits of
      another script, which [\d] and [int] take as well) is outside the
      model: a statement about every string is about every string of these.
    - Exceptions are values of [exn]; a method is a function from the state
      of the object it may mutate to an outcome and the state afterwards
      (the monad [M]).  A mutation done before an exception is raised stays.
    - The calendar functions of the [datetime] module are transcribed from
      CPython's [_pydatetime.py] ([_is_leap], [_days_in_month], [_ymd2ord],
      [_ord2ymd]); the day [today] the process reads from the clock is an
      argument of what depends on it. *)

From Stdlib Require Import ZArith List String Ascii Bool Lia DecimalString.
Import ListNotations.

Local Open Scope list_scope.
Local Open Scope string_scope.
Local Open Scope Z_scope.

(** ** Characters and strings *)

Module Str.

(** The ranges [[a-b]] of a pattern, and the class [\d]: of the characters
    below U+0100, the decimal digits are [0] to [9] and no other. *)
Definition in_range (lo hi : ascii) (c : ascii) : bool :=
  ((nat_of_ascii lo <=? nat_of_ascii c) && (nat_of_ascii c <=? nat_of_ascii hi))%nat.

Definition is_digit : ascii -> bool := in_range "0" "9".

Definition is_char (a : ascii) (c : ascii) : bool := Ascii.eqb a c.

(** [str.isspace] on one character: the separators of [str.split()] and
    [str.strip()]. *)
Definition is_space (c : ascii) : bool :=
  let n := nat_of_ascii c in
  ((9 <=? n) && (n <=? 13) || (28 <=? n) && (n <=? 32)
   || (n =? 133) || (n =? 160))%nat.

Definition digit_value (c : ascii) : Z := Z.of_nat (nat_of_ascii c) - 48.

Definition digit_char (n : Z) : ascii := ascii_of_nat (48 + Z.to_nat n).

(** The digits of [int] after the first one, most significant first; an
    underscore may stand between two digits. *)
Fixpoint int_digits (acc : Z) (s : string) : option Z :=
  match s with
  | EmptyString => Some acc
  | String c s' =>
      if is_digit c then int_digits (10 * acc + digit_value c) s'
      else if is_char "_" c then
        match s' with
        | String c' s'' =>
            if is_digit c' then int_digits (10 * acc + digit_value c') s''
            else None
        | EmptyString => None
        end
      else None
  end.

(** An unsigned number: a digit, then [int_digits]. *)
Definition int_unsigned (s : string) : option Z :=
  match s with
  | String c s' => if is_digit c then int_digits (digit_value c) s' else None
  | EmptyString => None
  end.

Fixpoint lstrip (s : string) : string :=
  match s with
  | String c s' => if is_space c then lstrip s' else s
  | EmptyString => EmptyString
  end.

Fixpoint rstrip (s : string) : string :=
  match s with
  | EmptyString => EmptyString
  | String c s' =>
      match rstrip s' with
      | EmptyString => if is_space c then EmptyString else String c EmptyString
      | t => String c t
      end
  end.

Definition strip (s : string) : string := lstrip (rstrip s).

(** The blanks [int] skips around a number: the white space of ASCII and,
    of the characters from U+0080 on, those [str.isspace] takes.  The
    separators U+001C to U+001F, blanks for [str.split], are not skipped. *)
Definition is_blank (c : ascii) : bool :=
  let n := nat_of_ascii c in
  ((9 <=? n) && (n <=? 13) || (n =? 32) || (n =? 133) || (n =? 160))%nat.

Fixpoint lskip (s : string) : string :=
  match s with
  | String c s' => if is_blank c then lskip s' else s
  | EmptyString => EmptyString
  end.

Fixpoint rskip (s : string) : string :=
  match s with
  | EmptyString => EmptyString
  | String c s' =>
      match rskip s' with
      | EmptyString => if is_blank c then EmptyString else String c EmptyString
      | t => String c t
      end
  end.

(** How many digits a string has, and how many [int] takes at most
    ([sys.int_info.default_max_str_digits]). *)
Fixpoint digits (s : string) : nat :=
  match s with
  | EmptyString => O
  | String c s' => if is_digit c then S (digits s') else digits s'
  end.

Definition max_str_digits : Z := 4300.

(** The number a text writes: blanks around, an optional sign, then
    decimal digits. *)
Definition int_text (s : string) : option Z :=
  match lskip (rskip s) with
  | EmptyString => None
  | String c t =>
      if is_char "-" c then option_map Z.opp (int_unsigned t)
      else if is_char "+" c then int_unsigned t
      else int_unsigned (String c t)
  end.

(** [int(s)]: the number the text writes, when it has at most
    [max_str_digits] digits; anything else is a [ValueError] ([None]). *)
Definition int (s : string) : option Z :=
  if max_str_digits <? Z.of_nat (digits s) then None else int_text s.

(** [str(n)] for a natural number. *)
Definition of_nat (n : nat) : string := NilZero.string_of_uint (Nat.to_uint n).

(** [%02d] and [%04d]. *)
Definition pad2 (n : Z) : string :=
  String (digit_char (n / 10 mod 10)) (String (digit_char (n mod 10)) EmptyString).

Definition pad4 (n : Z) : string :=
  String (digit_char (n / 1000 mod 10))
    (String (digit_char (n / 100 mod 10)) (pad2 n)).

(** [%d] of a number from 0 to 9999: its digits, none for leading zeros. *)
Definition decimal (n : Z) : string :=
  if n <? 10 then String (digit_char n) EmptyString
  else if n <? 100 then pad2 n
  else if n <? 1000 then String (digit_char (n / 100)) (pad2 n)
  else pad4 n.

(** [str.lower] on one character: A-Z, and the capital letters U+00C0 to
    U+00DE but the multiplication sign U+00D7. *)
Definition lower_char (c : ascii) : ascii :=
  let n := nat_of_ascii c in
  if ((65 <=? n) && (n <=? 90)
      || (192 <=? n) && (n <=? 222) && negb (n =? 215))%nat
  then ascii_of_nat (n + 32) else c.

Fixpoint lower (s : string) : string :=
  match s with
  | EmptyString => EmptyString
  | String c s' => String (lower_char c) (lower s')
  end.

(** [s.split()]: the maximal runs of non-blank characters.  [word] holds
    the characters of the run being read, last first. *)
Fixpoint rev_string (acc s : string) : string :=
  match s with
  | EmptyString => acc
  | String c s' => rev_string (String c acc) s'
  end.

Definition flush (word : string) (out : list string) : list string :=
  match word with
  | EmptyString => out
  | _ => rev_string EmptyString word :: out
  end.

Fixpoint split_aux (word : string) (s : string) : list string :=
  match s with
  | EmptyString => flush word []
  | String c s' =>
      if is_space c then flush word (split_aux EmptyString s')
      else split_aux (String c word) s'
  end.

Definition split (s : string) : list string := split_aux EmptyString s.

(** The characters of a string, each as a string of length one: what
    unpacking a [str] yields. *)
Fixpoint chars (s : string) : list string :=
  match s with
  | EmptyString => []
  | String c s' => String c EmptyString :: chars s'
  end.

(** The text ['\n']. *)
Definition newline : string := String "010" EmptyString.

(** [sep.join(l)]. *)
Fixpoint join (sep : string) (l : list string) : string :=
  match l with
  | [] => EmptyString
  | [x] => x
  | x :: rest => x ++ sep ++ join sep rest
  end.

End Str.

(** ** The patterns of [re] the program uses *)

Module Re.

(** A character class, and a sequence of classes: one alternative of a
    group. *)
Definition cls := ascii -> bool.

(** Matches the classes one after the other at the start of [s]; gives the
    text matched and what follows it. *)
Fixpoint classes (cs : list cls) (s : string) : option (string * string) :=
  match cs with
  | [] => Some (EmptyString, s)
  | p :: cs' =>
      match s with
      | EmptyString => None
      | String c s' =>
          if p c then
            match classes cs' s' with
            | Some (txt, rest) => Some (String c txt, rest)
            | None => None
            end
          else None
      end
  end.

(** A group [(a1|a2|...)] followed by the rest of the pattern [k]: the
    alternatives are tried in order, and the next one is tried when the rest
    of the pattern fails after one of them (backtracking). *)
Fixpoint group {A} (alts : list (list cls)) (s : string)
    (k : string -> string -> option A) : option A :=
  match alts with
  | [] => None
  | a :: alts' =>
      match classes a s with
      | Some (txt, rest) =>
          match k txt rest with
          | Some r => Some r
          | None => group alts' s k
          end
      | None => group alts' s k
      end
  end.

(** [$] without [re.MULTILINE]: at the end of the string, and also just
    before a newline that ends it. *)
Definition at_dollar (s : string) : bool :=
  match s with
  | EmptyString => true
  | String c EmptyString => Str.is_char "010" c
  | _ => false
  end.

(** [re.match('^\d{10}$', s)] as a truth value. *)
Definition match_phone (s : string) : bool :=
  match classes (repeat Str.is_digit 10) s with
  | Some (_, rest) => at_dollar rest
  | None => false
  end.

End Re.

(** ** Exceptions and outcomes *)

(** The exception classes the program raises or meets. *)
Inductive exn_class :=
| ValueError | KeyError | IndexError | AttributeError | OverflowError | EOFError
| UnpicklingError.

(** The arguments of an exception: none ([raise ValueError]), a message of
    the program, or a text composed by the library, which is not modelled. *)
Inductive exn_args :=
| Bare
| Message (s : string)
| LibraryText.

Record exn := Exn { exn_cls : exn_class; exn_info : exn_args }.

Inductive outcome (A : Type) :=
| Ok (a : A)
| Raise (e : exn).
Arguments Ok {A} a.
Arguments Raise {A} e.

(** Computations without state: the constructors and the library calls. *)
Definition obind {A B} (o : outcome A) (f : A -> outcome B) : outcome B :=
  match o with
  | Ok a => f a
  | Raise e => Raise e
  end.

(** ** The [datetime] module *)

Module Datetime.

Definition MINYEAR : Z := 1.
Definition MAXYEAR : Z := 9999.
Definition MAXORDINAL : Z := 3652059.

Definition DAYS_IN_MONTH : list Z :=
  [-1; 31; 28; 31; 30; 31; 30; 31; 31; 30; 31; 30; 31].

Definition DAYS_BEFORE_MONTH : list Z :=
  [-1; 0; 31; 59; 90; 120; 151; 181; 212; 243; 273; 304; 334].

Definition is_leap (year : Z) : bool :=
  (year mod 4 =? 0) && (negb (year mod 100 =? 0) || (year mod 400 =? 0)).

Definition days_before_year (year : Z) : Z :=
  let y := year - 1 in y * 365 + y / 4 - y / 100 + y / 400.

Definition days_in_month (year month : Z) : Z :=
  if (month =? 2) && is_leap year then 29
  else nth (Z.to_nat month) DAYS_IN_MONTH 0.

Definition days_before_month (year month : Z) : Z :=
  nth (Z.to_nat month) DAYS_BEFORE_MONTH 0
  + (if (2 <? month) && is_leap year then 1 else 0).

Definition ymd2ord (year month day : Z) : Z :=
  days_before_year year + days_before_month year month + day.

Definition DI400Y : Z := 146097.
Definition DI100Y : Z := 36524.
Definition DI4Y : Z := 1461.

Definition ord2ymd (n0 : Z) : Z * Z * Z :=
  let n := n0 - 1 in
  let n400 := n / DI400Y in
  let n := n mod DI400Y in
  let year := n400 * 400 + 1 in
  let n100 := n / DI100Y in
  let n := n mod DI100Y in
  let n4 := n / DI4Y in
  let n := n mod DI4Y in
  let n1 := n / 365 in
  let n := n mod 365 in
  let year := year + n100 * 100 + n4 * 4 + n1 in
  if (n1 =? 4) || (n100 =? 4) then (year - 1, 12, 31)
  else
    let leapyear := (n1 =? 3) && (negb (n4 =? 24) || (n100 =? 3)) in
    let month := Z.shiftr (n + 50) 5 in
    let preceding :=
      nth (Z.to_nat month) DAYS_BEFORE_MONTH 0
      + (if (2 <? month) && leapyear then 1 else 0) in
    if n <? preceding then
      let month := month - 1 in
      let preceding :=
        preceding
        - (nth (Z.to_nat month) DAYS_IN_MONTH 0
           + (if (month =? 2) && leapyear then 1 else 0)) in
      (year, month, n - preceding + 1)
    else (year, month, n - preceding + 1).

(** A [date], and a [datetime]: a date with a time of day. *)
Record date := Date { year : Z; month : Z; day : Z }.

Record datetime := DateTime {
  dt_date : date;
  hour : Z; minute : Z; second : Z; microsecond : Z
}.

(** The check every constructor of a date runs on its fields. *)
Definition check_date_fields (y m d : Z) : outcome date :=
  if negb ((MINYEAR <=? y) && (y <=? MAXYEAR)) then
    Raise (Exn ValueError LibraryText)
  else if negb ((1 <=? m) && (m <=? 12)) then
    Raise (Exn ValueError LibraryText)
  else if negb ((1 <=? d) && (d <=? days_in_month y m)) then
    Raise (Exn ValueError LibraryText)
  else Ok (Date y m d).

(** [dt.replace(year=y)]: a new [datetime], built by the constructor. *)
Definition replace_year (dt : datetime) (y : Z) : outcome datetime :=
  obind (check_date_fields y (month (dt_date dt)) (day (dt_date dt)))
    (fun d => Ok (DateTime d (hour dt) (minute dt) (second dt) (microsecond dt))).

(** [dt.date()]. *)
Definition date_of (dt : datetime) : date := dt_date dt.

Definition toordinal (d : date) : Z := ymd2ord (year d) (month d) (day d).

Definition fromordinal (n : Z) : date :=
  let '(y, m, d) := ord2ymd n in Date y m d.

(** [d.weekday()]: Monday is 0, Sunday is 6. *)
Definition weekday (d : date) : Z := (toordinal d + 6) mod 7.

(** [a < b] on dates: the order of the triples year, month, day. *)
Definition date_ltb (a b : date) : bool :=
  (year a <? year b)
  || (year a =? year b)
     && ((month a <? month b) || (month a =? month b) && (day a <? day b)).

(** [(a - b).days]. *)
Definition days_between (a b : date) : Z := toordinal a - toordinal b.

(** [d + timedelta(n)]. *)
Definition add_days (d : date) (n : Z) : outcome date :=
  let o := toordinal d + n in
  if (0 <? o) && (o <=? MAXORDINAL) then Ok (fromordinal o)
  else Raise (Exn OverflowError LibraryText).

(** [d.strftime("%d.%m.%Y")]: the day and the month on two digits; the
    year as the C library writes [%Y], which for glibc is the number with
    the digits it has, so that a year below 1000 has fewer than four. *)
Definition strftime_dmY (d : date) : string :=
  Str.pad2 (day d) ++ "." ++ Str.pad2 (month d) ++ "." ++ Str.decimal (year d).

(** The groups of the pattern [_strptime] compiles for ["%d.%m.%Y"]:
    [(?P<d>3[0-1]|[1-2]\d|0[1-9]|[1-9]| [1-9])], the dot,
    [(?P<m>1[0-2]|0[1-9]|[1-9])] and [(?P<Y>\d\d\d\d)]. *)
Definition re_d : list (list Re.cls) :=
  [ [Str.is_char "3"; Str.in_range "0" "1"];
    [Str.in_range "1" "2"; Str.is_digit];
    [Str.is_char "0"; Str.in_range "1" "9"];
    [Str.in_range "1" "9"];
    [Str.is_char " "; Str.in_range "1" "9"] ].

Definition re_m : list (list Re.cls) :=
  [ [Str.is_char "1"; Str.in_range "0" "2"];
    [Str.is_char "0"; Str.in_range "1" "9"];
    [Str.in_range "1" "9"] ].

Definition re_Y : list (list Re.cls) :=
  [ [Str.is_digit; Str.is_digit; Str.is_digit; Str.is_digit] ].

Definition re_dot : list (list Re.cls) := [ [Str.is_char "."] ].

(** The match of the pattern at the start of [s]: the texts of the groups
    [d], [m], [Y] and what follows the match. *)
Definition match_dmY (s : string) : option (string * string * string * string) :=
  Re.group re_d s (fun d r1 =>
  Re.group re_dot r1 (fun _ r2 =>
  Re.group re_m r2 (fun m r3 =>
  Re.group re_dot r3 (fun _ r4 =>
  Re.group re_Y r4 (fun y r5 => Some (d, m, y, r5)))))).

(** [datetime.strptime(s, "%d.%m.%Y")]: no match, text left after the
    match and a date that does not exist are each a [ValueError]. *)
Definition strptime_dmY (s : string) : outcome datetime :=
  match match_dmY s with
  | None => Raise (Exn ValueError LibraryText)
  | Some (d, m, y, rest) =>
      match rest with
      | String _ _ => Raise (Exn ValueError LibraryText)
      | EmptyString =>
          match Str.int y, Str.int m, Str.int d with
          | Some y, Some m, Some d =>
              obind (check_date_fields y m d)
                (fun dd => Ok (DateTime dd 0 0 0 0))
          | _, _, _ => Raise (Exn ValueError LibraryText)
          end
      end
  end.

End Datetime.

(** ** Methods: state and exceptions *)

(** A method that may mutate a state of type [S] and returns an [A] or
    raises.  The state after a raise is the state at the raise. *)
Definition M (S A : Type) : Type := S -> outcome A * S.

Definition ret {S A} (a : A) : M S A := fun s => (Ok a, s).

Definition raise {S A} (e : exn) : M S A := fun s => (Raise e, s).

Definition bind {S A B} (m : M S A) (f : A -> M S B) : M S B :=
  fun s =>
    match m s with
    | (Ok a, s') => f a s'
    | (Raise e, s') => (Raise e, s')
    end.

Definition get {S} : M S S := fun s => (Ok s, s).

Definition lift {S A} (o : outcome A) : M S A := fun s => (o, s).

Declare Scope method_scope.
Delimit Scope method_scope with method.
Notation "x <- m ;; k" := (bind m (fun x => k))
  (at level 61, m at next level, right associativity) : method_scope.
Notation "m ;;; k" := (bind m (fun _ => k))
  (at level 61, right associativity) : method_scope.

(** ** Dictionaries

    A [dict] with string keys keeps its keys in the order of their first
    insertion: a list of pairs, the keys without repetition. *)

Module Dict.

Definition t (V : Type) : Type := list (string * V).

Definition keys {V} (d : t V) : list string := map fst d.

Fixpoint get {V} (k : string) (d : t V) : option V :=
  match d with
  | [] => None
  | (k', v) :: d' => if String.eqb k' k then Some v else get k d'
  end.

(** [d[k] = v]: the value of a key present is replaced where it stands, a
    new key goes last. *)
Fixpoint set {V} (k : string) (v : V) (d : t V) : t V :=
  match d with
  | [] => [(k, v)]
  | (k', v') :: d' =>
      if String.eqb k' k then (k', v) :: d' else (k', v') :: set k v d'
  end.

(** [del d[k]], [None] for the [KeyError] of an absent key. *)
Fixpoint del {V} (k : string) (d : t V) : option (t V) :=
  match d with
  | [] => None
  | (k', v') :: d' =>
      if String.eqb k' k then Some d'
      else option_map (cons (k', v')) (del k d')
  end.

End Dict.

(** ** The fields *)

(** [class Field]: an object with one attribute, [value]. *)
Record Field (A : Type) := mkField { value : A }.
Arguments mkField {A} value.
Arguments value {A} f.

(** [Name(name)]. *)
Definition Name (name : string) : outcome (Field string) :=
  match name with
  | EmptyString => Raise (Exn ValueError Bare)
  | _ => Ok (mkField name)
  end.

(** [Phone(phone)]. *)
Definition Phone (phone : string) : outcome (Field string) :=
  let is_phone := Re.match_phone phone in
  if negb is_phone then Raise (Exn ValueError Bare)
  else Ok (mkField phone).

Definition invalid_date_message : string := "Invalid date format. Use DD.MM.YYYY".

(** [Birthday(birthday)]: the [ValueError] of [strptime] is replaced by one
    with the message of the program. *)
Definition Birthday (birthday : string) : outcome (Field Datetime.datetime) :=
  match Datetime.strptime_dmY birthday with
  | Ok v => Ok (mkField v)
  | Raise (Exn ValueError _) => Raise (Exn ValueError (Message invalid_date_message))
  | Raise e => Raise e
  end.

(** ** [class Record] *)

Module Rec.

Record t := mk {
  name : Field string;
  phones : list (Field string);
  birthday : option (Field Datetime.datetime)
}.

Definition with_phones (self : t) (l : list (Field string)) : t :=
  mk (name self) l (birthday self).

Definition with_birthday (self : t) (b : option (Field Datetime.datetime)) : t :=
  mk (name self) (phones self) b.

(** [Record(name)]. *)
Definition init (nm : string) : outcome t :=
  obind (Name nm) (fun n => Ok (mk n [] None)).

(** The loop [for ph in self.phones: if ph.value == phone: ...] of the four
    methods, with what each does at the first phone found. *)
Fixpoint present (phone : string) (l : list (Field string)) : bool :=
  match l with
  | [] => false
  | ph :: rest => if String.eqb (value ph) phone then true else present phone rest
  end.

Fixpoint remove_first (phone : string) (l : list (Field string))
    : option (list (Field string)) :=
  match l with
  | [] => None
  | ph :: rest =>
      if String.eqb (value ph) phone then Some rest
      else option_map (cons ph) (remove_first phone rest)
  end.

Fixpoint edit_first (old_phone new_phone : string) (l : list (Field string))
    : option (list (Field string)) :=
  match l with
  | [] => None
  | ph :: rest =>
      if String.eqb (value ph) old_phone then Some (mkField new_phone :: rest)
      else option_map (cons ph) (edit_first old_phone new_phone rest)
  end.

Fixpoint find_first (phone : string) (l : list (Field string)) : option string :=
  match l with
  | [] => None
  | ph :: rest =>
      if String.eqb (value ph) phone then Some (value ph)
      else find_first phone rest
  end.

Definition add_phone (phone : string) : M t unit :=
  fun self =>
    if present phone (phones self) then (Ok tt, self)
    else
      match Phone phone with
      | Ok p => (Ok tt, with_phones self (phones self ++ [p]))
      | Raise e => (Raise e, self)
      end.

Definition remove_phone (phone : string) : M t unit :=
  fun self =>
    match remove_first phone (phones self) with
    | Some l => (Ok tt, with_phones self l)
    | None => (Raise (Exn ValueError Bare), self)
    end.

Definition edit_phone (old_phone new_phone : string) : M t unit :=
  fun self =>
    match edit_first old_phone new_phone (phones self) with
    | Some l => (Ok tt, with_phones self l)
    | None => (Raise (Exn ValueError Bare), self)
    end.

Definition find_phone (phone : string) : M t string :=
  fun self =>
    match find_first phone (phones self) with
    | Some v => (Ok v, self)
    | None => (Raise (Exn ValueError Bare), self)
    end.

Definition add_birthday (b : string) : M t unit :=
  fun self =>
    match Birthday b with
    | Ok v => (Ok tt, with_birthday self (Some v))
    | Raise e => (Raise e, self)
    end.

Definition show_birthday : M t (option (Field Datetime.datetime)) :=
  fun self => (Ok (birthday self), self).

(** [str(record)]. *)
Definition to_string (self : t) : string :=
  ("Contact name: " ++ value (name self) ++ ", phones: "
   ++ Str.join "; " (map value (phones self)))%string.

(** The values of the phones, in order. *)
Definition phone_values (self : t) : list string := map value (phones self).

End Rec.

(** ** [class AddressBook] *)

Module AddressBook.

Import Datetime.
Local Open Scope method_scope.

Record t := mk { data : Dict.t Rec.t }.

Definition empty : t := mk [].

Definition add_record (record : Rec.t) : M t unit :=
  fun self =>
    let name := value (Rec.name record) in
    (Ok tt, mk (Dict.set name record (data self))).

Definition find (name : string) : M t (option Rec.t) :=
  fun self => (Ok (Dict.get name (data self)), self).

Definition delete (name : string) : M t unit :=
  fun self =>
    match Dict.del name (data self) with
    | Some d => (Ok tt, mk d)
    | None => (Raise (Exn KeyError LibraryText), self)
    end.

Definition check_period : Z := 7.

(** The body of the loop of [get_upcoming_birthdays] for a record with a
    birthday [b]: the date of the birthday this year, or next year when it
    has passed. *)
Definition this_or_next (today : date) (b : datetime) : outcome date :=
  obind (replace_year b (year today)) (fun d =>
  let birthday := date_of d in
  if date_ltb birthday today then
    obind (replace_year b (year today + 1)) (fun d' => Ok (date_of d'))
  else Ok birthday).

(** The rest of the body: [None] when the record is skipped, the text put
    in [bdays] otherwise. *)
Definition entry (today : date) (record : Rec.t) : outcome (option string) :=
  match Rec.birthday record with
  | None => Ok None
  | Some b =>
      obind (this_or_next today (value b)) (fun birthday =>
      if check_period <? days_between birthday today then Ok None
      else if weekday birthday <? 5 then Ok (Some (strftime_dmY birthday))
      else if weekday birthday =? 5 then
        obind (add_days birthday 2) (fun d => Ok (Some (strftime_dmY d)))
      else if weekday birthday =? 6 then
        obind (add_days birthday 1) (fun d => Ok (Some (strftime_dmY d)))
      else Ok None)
  end.

(** [for name in self.data: ...], [bdays] being the dictionary built. *)
Fixpoint upcoming_loop (today : date) (names : list string)
    (bdays : Dict.t string) : M t (Dict.t string) :=
  match names with
  | [] => ret bdays
  | name :: rest =>
      record <- find name ;;
      match record with
      | None => raise (Exn AttributeError LibraryText)
      | Some record =>
          e <- lift (entry today record) ;;
          match e with
          | None => upcoming_loop today rest bdays
          | Some text => upcoming_loop today rest (Dict.set name text bdays)
          end
      end
  end.

Definition get_upcoming_birthdays (today : date) : M t (Dict.t string) :=
  self <- get ;;
  upcoming_loop today (Dict.keys (data self)) [].

End AddressBook.

(** ** The command handlers and the command loop *)

Module Bot.

Import Datetime.
Local Open Scope method_scope.

(** What the file ["addressbook.pkl"] holds: the pickle of a book, as
    [save_data] writes it, or bytes that are not one, on which
    [pickle.load] raises an exception ([EOFError] on an empty file,
    [UnpicklingError] on a text, ...) of a class other than
    [FileNotFoundError]. *)
Inductive content :=
| Pickle (b : AddressBook.t)
| Unreadable (e : exn).

(** What the process works on: the book [main] holds, the day the clock
    shows, the lines still to be read from the terminal, what has been
    written to it (prompts and printed lines, in order), and the content of
    the file ["addressbook.pkl"], if it exists. *)
Record World := mkWorld {
  book : AddressBook.t;
  clock : date;
  stdin : list string;
  stdout : list string;
  file : option content
}.

Definition with_book (w : World) (b : AddressBook.t) : World :=
  mkWorld b (clock w) (stdin w) (stdout w) (file w).

(** A method of the book, called by a handler. *)
Definition on_book {A} (m : M AddressBook.t A) : M World A :=
  fun w => let '(r, b) := m (book w) in (r, with_book w b).

(** A method of the record the book holds under [name], called through a
    reference [book.find(name)] gave: the mutation is seen in the book.
    On [None] the call is an [AttributeError]. *)
Definition on_record {A} (name : string) (m : M Rec.t A) : M AddressBook.t A :=
  fun self =>
    match Dict.get name (AddressBook.data self) with
    | Some record =>
        let '(r, record') := m record in
        (r, AddressBook.mk (Dict.set name record' (AddressBook.data self)))
    | None => (Raise (Exn AttributeError LibraryText), self)
    end.

Definition print (line : string) : M World unit :=
  fun w => (Ok tt, mkWorld (book w) (clock w) (stdin w) (stdout w ++ [line]) (file w)).

(** [input(prompt)]: [EOFError] when no line is left. *)
Definition input (prompt : string) : M World string :=
  fun w =>
    let w' := mkWorld (book w) (clock w) (stdin w) (stdout w ++ [prompt]) (file w) in
    match stdin w with
    | [] => (Raise (Exn EOFError LibraryText), w')
    | line :: rest =>
        (Ok line, mkWorld (book w) (clock w) rest (stdout w ++ [prompt]) (file w))
    end.

(** [save_data(book)]: the file is opened for writing and holds the pickle
    of the book afterwards.  A book is made of strings, lists and
    [datetime] values, which [pickle.dump] writes; that the system lets the
    file be written is taken for granted. *)
Definition save_data : M World unit :=
  fun w =>
    (Ok tt,
     mkWorld (book w) (clock w) (stdin w) (stdout w) (Some (Pickle (book w)))).

(** [load_data()]: the book the file holds; a new book when there is no
    file, the [FileNotFoundError] of [open] being the one exception caught;
    what [pickle.load] raises on other bytes goes through. *)
Definition load_data : M World AddressBook.t :=
  fun w =>
    match file w with
    | Some (Pickle b) => (Ok b, w)
    | Some (Unreadable e) => (Raise e, w)
    | None => (Ok AddressBook.empty, w)
    end.

Definition msg_KeyError : string := "The contact exists".
Definition msg_ValueError : string := "Please enter the correct arguments".
Definition msg_IndexError : string := "No such contacts".

(** The decorator: the value of [func], or the message of the exception
    caught; any other exception goes through. *)
Definition input_error {S A} (func : M S A) : M S (A + string) :=
  fun s =>
    match func s with
    | (Ok a, s') => (Ok (inl a), s')
    | (Raise (Exn KeyError i), s') => (Ok (inr msg_KeyError), s')
    | (Raise (Exn ValueError i), s') => (Ok (inr msg_ValueError), s')
    | (Raise (Exn IndexError i), s') => (Ok (inr msg_IndexError), s')
    | (Raise e, s') => (Raise e, s')
    end.

(** What [print] shows of the value a decorated handler returns. *)
Definition shown (r : string + string) : string :=
  match r with inl s => s | inr s => s end.

Definition parse_input (user_input : string) : M World (string * list string) :=
  match Str.split user_input with
  | [] => raise (Exn ValueError LibraryText)
  | cmd :: args => ret (Str.lower (Str.strip cmd), args)
  end.

Definition add_contact (args : list string) : M World string :=
  match args with
  | name :: phone :: _ =>
      record <- on_book (AddressBook.find name) ;;
      message <-
        match record with
        | None =>
            record <- lift (Rec.init name) ;;
            on_book (AddressBook.add_record record) ;;;
            ret "Contact added."
        | Some _ => ret "Contact updated."
        end ;;
      match phone with
      | EmptyString => ret message
      | _ => on_book (on_record name (Rec.add_phone phone)) ;;; ret message
      end
  | _ => raise (Exn ValueError LibraryText)
  end.

(** [for i, number in enumerate(phones): print(f'{i}: {number}')]. *)
Fixpoint print_phones (i : nat) (phones : list (Field string)) : M World unit :=
  match phones with
  | [] => ret tt
  | number :: rest =>
      print (Str.of_nat i ++ ": " ++ value number)%string ;;;
      print_phones (S i) rest
  end.

(** [phones[key]], a negative [key] counting from the end. *)
Definition index {A} (l : list A) (key : Z) : outcome A :=
  let n := Z.of_nat (List.length l) in
  let k := if key <? 0 then key + n else key in
  if (0 <=? k) && (k <? n) then
    match nth_error l (Z.to_nat k) with
    | Some x => Ok x
    | None => Raise (Exn IndexError LibraryText)
    end
  else Raise (Exn IndexError LibraryText).

Definition change_contact (args : list string) : M World string :=
  match args with
  | [name; new_phone] =>
      record <- on_book (AddressBook.find name) ;;
      match record with
      | Some record =>
          let phones := Rec.phones record in
          phone <-
            match phones with
            | [] => ret None
            | [ph] => ret (Some (value ph))
            | _ =>
                print ("The contact " ++ name ++ " has following phones:")%string ;;;
                print_phones 0 phones ;;;
                let indexes := map Str.of_nat (seq 0 (List.length phones)) in
                let msg := ("Choose the number of phone to edit ("
                            ++ Str.join ", " indexes ++ "): ")%string in
                answer <- input msg ;;
                match Str.int answer with
                | None => raise (Exn ValueError LibraryText)
                | Some key =>
                    ph <- lift (index phones key) ;;
                    ret (Some (value ph))
                end
            end ;;
          match phone with
          | None => ret "No phones to edit"
          | Some phone =>
              on_book (on_record name (Rec.edit_phone phone new_phone)) ;;;
              ret ("Contact updated successfully. Number " ++ phone
                   ++ " was replaced with " ++ new_phone ++ ".")%string
          end
      | None => raise (Exn KeyError Bare)
      end
  | _ => raise (Exn ValueError Bare)
  end.

(** [for phone in phones: print_text += str(phone) + '\n']. *)
Fixpoint phone_lines (phones : list (Field string)) : string :=
  match phones with
  | [] => EmptyString
  | phone :: rest => (value phone ++ Str.newline ++ phone_lines rest)%string
  end.

Definition show_contact (args : list string) : M World string :=
  match args with
  | [] => raise (Exn IndexError LibraryText)
  | name :: _ =>
      record <- on_book (AddressBook.find name) ;;
      match record with
      | Some record =>
          ret ("The contact " ++ name ++ " hase following phones:" ++ Str.newline
               ++ phone_lines (Rec.phones record))%string
      | None => raise (Exn IndexError Bare)
      end
  end.

Fixpoint all_lines (d : Dict.t Rec.t) : string :=
  match d with
  | [] => EmptyString
  | (name, record) :: rest =>
      (name ++ ":" ++ Str.newline ++ phone_lines (Rec.phones record)
       ++ all_lines rest)%string
  end.

Definition show_all : M World string :=
  w <- get ;;
  match AddressBook.data (book w) with
  | [] => raise (Exn IndexError Bare)
  | d => ret (all_lines d)
  end.

Definition add_birthday (args : list string) : M World string :=
  match args with
  | [name; birthday] =>
      record <- on_book (AddressBook.find name) ;;
      match record with
      | Some _ =>
          on_book (on_record name (Rec.add_birthday birthday)) ;;;
          ret "Date of birth added."
      | None => raise (Exn IndexError Bare)
      end
  | _ => raise (Exn ValueError Bare)
  end.

Definition show_birthday (args : list string) : M World string :=
  match args with
  | [] => raise (Exn IndexError LibraryText)
  | name :: _ =>
      record <- on_book (AddressBook.find name) ;;
      match record with
      | None => raise (Exn AttributeError LibraryText)
      | Some record =>
          match Rec.birthday record with
          | None => raise (Exn AttributeError LibraryText)
          | Some b => ret (strftime_dmY (date_of (value b)))
          end
      end
  end.

Definition birthdays : M World string :=
  w <- get ;;
  bdays <- on_book (AddressBook.get_upcoming_birthdays (clock w)) ;;
  match bdays with
  | [] => ret "No birthdays"
  | _ =>
      ret (Str.join Str.newline
             (map (fun '(name, text) => (name ++ ": " ++ text)%string) bdays))
  end.

(** [command, *args = parse_input(user_input)]: the pair the function
    returned, or the characters of the message of the decorator. *)
Definition unpack (r : (string * list string) + string)
    : outcome (string * list string) :=
  match r with
  | inl p => Ok p
  | inr msg =>
      match Str.chars msg with
      | [] => Raise (Exn ValueError LibraryText)
      | c :: rest => Ok (c, rest)
      end
  end.

Definition handle {S} (h : M S string) : M S string :=
  r <- input_error h ;; ret (shown r).

(** One turn of the [while True] of [main]: [false] at the [break]. *)
Definition turn : M World bool :=
  user_input <- input "Enter a command: " ;;
  parsed <- input_error (parse_input user_input) ;;
  p <- lift (unpack parsed) ;;
  let '(command, args) := p in
  if (command =? "close")%string || (command =? "exit")%string then
    print "Good bye!" ;;; save_data ;;; ret false
  else if (command =? "hello")%string then
    print "How can I help you?" ;;; ret true
  else if (command =? "add")%string then
    t <- handle (add_contact args) ;; print t ;;; ret true
  else if (command =? "change")%string then
    t <- handle (change_contact args) ;; print t ;;; ret true
  else if (command =? "phone")%string then
    t <- handle (show_contact args) ;; print t ;;; ret true
  else if (command =? "all")%string then
    t <- handle show_all ;; print t ;;; ret true
  else if (command =? "add-birthday")%string then
    t <- handle (add_birthday args) ;; print t ;;; ret true
  else if (command =? "show-birthday")%string then
    t <- handle (show_birthday args) ;; print t ;;; ret true
  else if (command =? "birthdays")%string then
    t <- handle birthdays ;; print t ;;; ret true
  else print "Invalid command" ;;; ret true.

(** The loop, for at most [n] turns; [true] when it has not ended. *)
Fixpoint loop (n : nat) : M World bool :=
  match n with
  | O => ret true
  | S n' =>
      continue <- turn ;;
      if continue then loop n' else ret false
  end.

Definition set_book (b : AddressBook.t) : M World unit :=
  fun w => (Ok tt, with_book w b).

Definition main (n : nat) : M World bool :=
  b <- load_data ;;
  set_book b ;;;
  print "Welcome to the assistant bot!" ;;;
  loop n.

End Bot.

(** ** The notions of the specification *)

Module Spec.

Import Datetime.

(** A string of exactly ten decimal digits. *)
Definition ten_digits (s : string) : bool :=
  (String.length s =? 10)%nat && forallb Str.is_digit (list_ascii_of_string s).

(** A real calendar date: the day exists in the month of the year. *)
Definition real_date (y m d : Z) : bool :=
  (MINYEAR <=? y) && (y <=? MAXYEAR) && (1 <=? m) && (m <=? 12)
  && (1 <=? d) && (d <=? days_in_month y m).

(** The literal format [DD.MM.YYYY]: two digits, a dot, two digits, a dot,
    four digits. *)
Definition DD_MM_YYYY (s : string) : bool :=
  match list_ascii_of_string s with
  | [d1; d2; p1; m1; m2; p2; y1; y2; y3; y4] =>
      forallb Str.is_digit [d1; d2; m1; m2; y1; y2; y3; y4]
      && Str.is_char "." p1 && Str.is_char "." p2
  | _ => false
  end.

(** The ways [strptime] reads a day and a month: two digits, one digit,
    and for a day also a blank and one digit. *)
Definition day_text (d : Z) (t : string) : Prop :=
  t = Str.pad2 d
  \/ d < 10 /\ (t = String (Str.digit_char d) EmptyString
                \/ t = String " " (String (Str.digit_char d) EmptyString)).

Definition month_text (m : Z) (t : string) : Prop :=
  t = Str.pad2 m \/ m < 10 /\ t = String (Str.digit_char m) EmptyString.

(** Midnight of a day. *)
Definition midnight (y m d : Z) : datetime := DateTime (Date y m d) 0 0 0 0.

(** No two phones of a record have the same value. *)
Definition unique_phones (r : Rec.t) : Prop := NoDup (Rec.phone_values r).

(** The candidate date of a birthday: its month and day in the current
    year, or in the next year when that day has passed; none when the day
    does not exist in the year in question. *)
Definition candidate (today : date) (b : datetime) : option date :=
  let m := month (dt_date b) in
  let d := day (dt_date b) in
  if real_date (year today) m d then
    if date_ltb (Date (year today) m d) today then
      if real_date (year today + 1) m d then Some (Date (year today + 1) m d)
      else None
    else Some (Date (year today) m d)
  else None.

(** The record has a birthday whose candidate date [c] lies at most seven
    days after [today]. *)
Definition qualifies (today : date) (record : Rec.t) (c : date) : Prop :=
  exists b, Rec.birthday record = Some b
            /\ candidate today (value b) = Some c
            /\ days_between c today <= 7.

(** The date of the congratulation: the Monday after a Saturday or a
    Sunday, the day itself otherwise. *)
Definition congratulation (c : date) : date :=
  if weekday c =? 5 then fromordinal (toordinal c + 2)
  else if weekday c =? 6 then fromordinal (toordinal c + 1)
  else c.

(** By how many days the congratulation is after the candidate date. *)
Definition shift (c : date) : Z :=
  if weekday c =? 5 then 2 else if weekday c =? 6 then 1 else 0.

(** All the birthdays of the book have a candidate date. *)
Definition candidates_exist (today : date) (book : AddressBook.t) : Prop :=
  forall name record b,
    Dict.get name (AddressBook.data book) = Some record ->
    Rec.birthday record = Some b ->
    candidate today (value b) <> None.

(** What the loop of [get_upcoming_birthdays] enters for a name of the
    book, if anything. *)
Definition entered (today : date) (book : AddressBook.t) (name : string)
    : option string :=
  match Dict.get name (AddressBook.data book) with
  | Some record =>
      match AddressBook.entry today record with
      | Ok (Some text) => Some text
      | _ => None
      end
  | None => None
  end.

End Spec.

(** ** The scenarios of the specification *)

Module Scenario.

Import Datetime.

(** A record with a name and a birthday, built by the methods. *)
Definition contact (name birthday : string) : Rec.t :=
  match Rec.init name with
  | Ok r => snd (Rec.add_birthday birthday r)
  | Raise _ => Rec.mk (mkField name) [] None
  end.

(** The book after [add_record] of the records, in order. *)
Definition book_of (l : list Rec.t) : AddressBook.t :=
  fold_left (fun b r => snd (AddressBook.add_record r b)) l AddressBook.empty.

Definition ann : Rec.t := contact "Ann" "12.01.1990".
Definition bob : Rec.t := contact "Bob" "13.01.1985".
Definition cara : Rec.t := contact "Cara" "01.03.1992".
Definition zed : Rec.t := contact "Zed" "29.02.2000".

(** Wednesday 10 January 2024, and the same day of 2023, a Tuesday. *)
Definition today : date := Date 2024 1 10.
Definition last_year : date := Date 2023 1 10.

(** A terminal session: a world with an empty book, no file, the lines to
    be typed and the clock at [today]. *)
Definition session (lines : list string) : Bot.World :=
  Bot.mkWorld AddressBook.empty today lines [] None.

End Scenario.

(** ** What the book lists *)

Module Listing.

(** The entries of the records of a dictionary, in its order: the names
    whose entry is computed and is a text, each with that text. *)
Definition entries (today : Datetime.date) (d : Dict.t Rec.t) : Dict.t string :=
  flat_map
    (fun '(name, record) =>
       match AddressBook.entry today record with
       | Ok (Some text) => [(name, text)]
       | _ => []
       end) d.

End Listing.

(** ** What the commands print *)

Module Shown.

(** The lines [change] prints for the phones of a contact, numbered from
    [i]. *)
Fixpoint numbered (i : nat) (phones : list (Field string)) : list string :=
  match phones with
  | [] => []
  | number :: rest =>
      (Str.of_nat i ++ ": " ++ value number)%string :: numbered (S i) rest
  end.

(** The prompt of [change] for [n] phones. *)
Definition choose (n : nat) : string :=
  ("Choose the number of phone to edit ("
   ++ Str.join ", " (map Str.of_nat (seq 0 n)) ++ "): ")%string.

(** What [change] writes for a contact with several phones before it
    reads the answer. *)
Definition asked (name : string) (phones : list (Field string)) : list string :=
  ("The contact " ++ name ++ " has following phones:")%string
  :: (numbered 0 phones ++ [choose (List.length phones)])%list.

(** The answer of [change] when it has replaced [phone] by [new_phone]. *)
Definition replaced (phone new_phone : string) : string :=
  ("Contact updated successfully. Number " ++ phone
   ++ " was replaced with " ++ new_phone ++ ".")%string.

(** The answer of [birthdays] for the dictionary of the book. *)
Definition upcoming (bdays : Dict.t string) : string :=
  match bdays with
  | [] => "No birthdays"%string
  | _ =>
      Str.join Str.newline
        (map (fun '(name, text) => (name ++ ": " ++ text)%string) bdays)
  end.

(** The world after text has been written and, maybe, a line read. *)
Definition after (w : Bot.World) (lines : list string) (written : list string)
    : Bot.World :=
  Bot.mkWorld (Bot.book w) (Bot.clock w) lines (Bot.stdout w ++ written)%list
    (Bot.file w).

End Shown.

(** ** What a turn of the loop reads and answers *)

Module Turn.

(** The command and the arguments [main] gets from a line: the first word
    in lower case and the other words, or, for a line without a word, the
    letters of the message of the [ValueError]. *)
Definition parsed (line : string) : string * list string :=
  match Str.split line with
  | [] =>
      match Str.chars Bot.msg_ValueError with
      | c :: rest => (c, rest)
      | [] => (EmptyString, [])
      end
  | cmd :: args => (Str.lower (Str.strip cmd), args)
  end.

(** [print(handler(args, book))] and the next turn: the answer is printed
    when the decorated handler returns one. *)
Definition answered (o : outcome string * Bot.World) : outcome bool * Bot.World :=
  match o with
  | (Ok text, w) => (Ok true, Shown.after w (Bot.stdin w) [text])
  | (Raise e, w) => (Raise e, w)
  end.


(** The record [book.find(name)] returns has two phones or more. *)
Definition several_phones (book : AddressBook.t) (name : string) : Prop :=
  match Dict.get name (AddressBook.data book) with
  | Some record => (2 <= List.length (Rec.phones record))%nat
  | None => False
  end.

End Turn.

(** ** What a handler leaves as it is *)

Module Frame.

(** From a world to a later one: the file and the day are the same, what
    was written is still there, with maybe more after it, and the lines to
    read are what is left of the lines there were. *)
Definition extends (w w' : Bot.World) : Prop :=
  Bot.file w' = Bot.file w
  /\ Bot.clock w' = Bot.clock w
  /\ (exists written, Bot.stdout w' = (Bot.stdout w ++ written)%list)
  /\ (exists read, Bot.stdin w = (read ++ Bot.stdin w')%list).

(** A method of the world that only ever goes to a later world. *)
Definition framed {A} (m : M Bot.World A) : Prop :=
  forall w o w', m w = (o, w') -> extends w w'.

End Frame.

(** * Properties *)

Local Open Scope list_scope.

(** ** Phones of a record *)

Lemma present_In (phone : string) (l : list (Field string)) :
  Rec.present phone l = true <-> In phone (map value l).
Proof.
  induction l as [|ph rest IH]; simpl.
  - split; [discriminate | tauto].
  - destruct (String.eqb_spec (value ph) phone) as [E|E].
    + split; auto.
    + rewrite IH. split; [auto | intros [H|H]; [contradiction | exact H]].
Qed.

Lemma present_false (phone : string) (l : list (Field string)) :
  Rec.present phone l = false <-> ~ In phone (map value l).
Proof.
  rewrite <- present_In. destruct (Rec.present phone l); split; intros; congruence.
Qed.

Lemma find_first_present (phone : string) (l : list (Field string)) :
  Rec.find_first phone l = if Rec.present phone l then Some phone else None.
Proof.
  induction l as [|ph rest IH]; simpl; auto.
  destruct (String.eqb_spec (value ph) phone) as [E|E]; [now rewrite E | exact IH].
Qed.

Lemma edit_first_present (old new : string) (l : list (Field string)) :
  Rec.present old l = true -> exists l', Rec.edit_first old new l = Some l'.
Proof.
  induction l as [|ph rest IH]; simpl; [discriminate|].
  destruct (String.eqb (value ph) old); intros H.
  - eexists; reflexivity.
  - destruct (IH H) as [l' E]. rewrite E. eexists; reflexivity.
Qed.

Lemma edit_first_absent (old new : string) (l : list (Field string)) :
  Rec.present old l = false -> Rec.edit_first old new l = None.
Proof.
  induction l as [|ph rest IH]; simpl; auto.
  destruct (String.eqb (value ph) old); [discriminate|].
  intros H. now rewrite (IH H).
Qed.

(** The values after an edit: the first [old] is replaced by [new]. *)
Lemma edit_first_values (old new : string) (l l' : list (Field string)) :
  Rec.edit_first old new l = Some l' ->
  exists before after,
    map value l = before ++ old :: after
    /\ ~ In old before
    /\ map value l' = before ++ new :: after.
Proof.
  revert l'. induction l as [|ph rest IH]; simpl; intros l' H; [discriminate|].
  destruct (String.eqb_spec (value ph) old) as [E|E].
  - injection H as <-. exists [], (map value rest). simpl. rewrite E. auto.
  - destruct (Rec.edit_first old new rest) as [r|] eqn:R; [|discriminate].
    injection H as <-. destruct (IH r eq_refl) as (b & a & H1 & H2 & H3).
    exists (value ph :: b), a. simpl. rewrite H1, H3.
    repeat split; auto. intros [F|F]; [congruence | contradiction].
Qed.

Lemma remove_first_values (phone : string) (l l' : list (Field string)) :
  Rec.remove_first phone l = Some l' ->
  exists before after,
    map value l = before ++ phone :: after
    /\ map value l' = before ++ after.
Proof.
  revert l'. induction l as [|ph rest IH]; simpl; intros l' H; [discriminate|].
  destruct (String.eqb_spec (value ph) phone) as [E|E].
  - injection H as <-. exists [], (map value rest). simpl. now rewrite E.
  - destruct (Rec.remove_first phone rest) as [r|] eqn:R; [|discriminate].
    injection H as <-. destruct (IH r eq_refl) as (b & a & H1 & H2).
    exists (value ph :: b), a. simpl. now rewrite H1, H2.
Qed.

Lemma count_occ_once_split (x : string) (before after : list string) :
  count_occ string_dec (before ++ x :: after) x = 1%nat ->
  ~ In x before /\ ~ In x after.
Proof.
  rewrite count_occ_app. simpl. destruct (string_dec x x); [|congruence].
  intros H. split; apply (count_occ_not_In string_dec); lia.
Qed.

(** ** The pattern of a phone *)

Lemma classes_digits_ok (s : string) :
  Spec.ten_digits s = true ->
  Re.classes (repeat Str.is_digit 10) s = Some (s, EmptyString).
Proof.
  unfold Spec.ten_digits. intros H. apply andb_prop in H as [L D].
  do 10 (destruct s as [|? s]; [discriminate L|]).
  destruct s; [|discriminate L].
  simpl in D. repeat (apply andb_prop in D as [? D]).
  simpl. repeat match goal with E : Str.is_digit _ = true |- _ => rewrite E; clear E end.
  reflexivity.
Qed.

Lemma Phone_ten_digits (p : string) :
  Spec.ten_digits p = true -> Phone p = Ok (mkField p).
Proof.
  intros H. unfold Phone, Re.match_phone. now rewrite (classes_digits_ok p H).
Qed.

Lemma Phone_outcome (p : string) :
  Phone p = Ok (mkField p) \/ Phone p = Raise (Exn ValueError Bare).
Proof.
  unfold Phone. destruct (Re.match_phone p); simpl; auto.
Qed.

Lemma Phone_succeeds_iff (p : string) :
  (exists v, Phone p = Ok v)
  <-> Spec.ten_digits p = true
      \/ exists q, p = (q ++ Str.newline)%string /\ Spec.ten_digits q = true.
Proof.
  split.
  - intros [v H]. unfold Phone in H.
    destruct (Re.match_phone p) eqn:E; [clear H|discriminate H].
    unfold Re.match_phone in E.
    do 10 (let c := fresh "c" in
           destruct p as [|c p]; simpl in E; [discriminate E|];
           destruct (Str.is_digit c) eqn:?; simpl in E; [|discriminate E]).
    destruct (Re.classes [] p) as [[txt rest]|] eqn:R; simpl in R;
      [injection R as <- <-|discriminate R].
    destruct p as [|x p].
    + left. unfold Spec.ten_digits. simpl.
      repeat match goal with D : Str.is_digit _ = true |- _ => rewrite D; clear D end.
      reflexivity.
    + destruct p; [|discriminate E]. unfold Re.at_dollar, Str.is_char in E.
      apply Ascii.eqb_eq in E. subst x. right.
      exists (String c (String c0 (String c1 (String c2 (String c3 (String c4
                (String c5 (String c6 (String c7 (String c8 EmptyString)))))))))).
      split; [reflexivity|]. unfold Spec.ten_digits. simpl.
      repeat match goal with D : Str.is_digit _ = true |- _ => rewrite D; clear D end.
      reflexivity.
  - intros [H|(q & -> & H)].
    + eexists. apply Phone_ten_digits, H.
    + unfold Phone, Re.match_phone.
      unfold Spec.ten_digits in H. apply andb_prop in H as [L D].
      do 10 (destruct q as [|? q]; [discriminate L|]).
      destruct q; [|discriminate L].
      simpl in D. repeat (apply andb_prop in D as [? D]).
      simpl. repeat match goal with E : Str.is_digit _ = true |- _ => rewrite E; clear E end.
      simpl. eexists; reflexivity.
Qed.

(** C3.  [Phone] takes a string that is not ten digits: ten digits and a
    final newline pass the pattern ['^\d{10}$'], whose [$] also matches
    before a newline that ends the string, and the value stored keeps the
    newline. *)
Theorem Phone_trailing_newline :
  Spec.ten_digits ("1234567890" ++ Str.newline)%string = false
  /\ Phone ("1234567890" ++ Str.newline)%string
     = Ok (mkField ("1234567890" ++ Str.newline)%string).
Proof. split; reflexivity. Qed.

(** ** No two equal phones *)

Lemma add_phone_unique (phone : string) (self self' : Rec.t) (r : outcome unit) :
  Spec.unique_phones self ->
  Rec.add_phone phone self = (r, self') ->
  Spec.unique_phones self'.
Proof.
  unfold Spec.unique_phones, Rec.add_phone, Rec.phone_values. intros U H.
  destruct (Rec.present phone (Rec.phones self)) eqn:P.
  - injection H as _ <-. exact U.
  - destruct (Phone_outcome phone) as [E|E]; rewrite E in H; injection H as _ <-;
      [|exact U].
    simpl. rewrite map_app. simpl.
    apply present_false in P.
    apply NoDup_rev in U. rewrite <- (rev_involutive (_ ++ _)).
    apply NoDup_rev. rewrite rev_app_distr. simpl.
    constructor; [rewrite <- in_rev; exact P | exact U].
Qed.

Lemma remove_phone_unique (phone : string) (self self' : Rec.t) (r : outcome unit) :
  Spec.unique_phones self ->
  Rec.remove_phone phone self = (r, self') ->
  Spec.unique_phones self'.
Proof.
  unfold Spec.unique_phones, Rec.remove_phone, Rec.phone_values. intros U H.
  destruct (Rec.remove_first phone (Rec.phones self)) as [l|] eqn:E;
    injection H as _ <-; [|exact U].
  destruct (remove_first_values _ _ _ E) as (b & a & H1 & H2).
  simpl. rewrite H2. rewrite H1 in U. now apply NoDup_remove_1 in U.
Qed.

(** [edit_phone] keeps the phones distinct when the new value is not one of
    them. *)
Lemma edit_phone_unique_fresh (old new : string) (self self' : Rec.t)
    (r : outcome unit) :
  Spec.unique_phones self ->
  ~ In new (Rec.phone_values self) ->
  Rec.edit_phone old new self = (r, self') ->
  Spec.unique_phones self'.
Proof.
  unfold Spec.unique_phones, Rec.edit_phone, Rec.phone_values. intros U F H.
  destruct (Rec.edit_first old new (Rec.phones self)) as [l|] eqn:E;
    injection H as _ <-; [|exact U].
  destruct (edit_first_values _ _ _ _ E) as (b & a & H1 & _ & H2).
  simpl. rewrite H2. rewrite H1 in U, F.
  apply NoDup_remove in U as [U _].
  apply NoDup_app_remove_l in U as Ua.
  assert (Fb : ~ In new (b ++ a)).
  { intros G. apply F. apply in_app_or in G as [G|G]; apply in_or_app;
      [left | right; right]; exact G. }
  clear F H1 H2 E.
  induction b as [|x b IH]; simpl in *.
  - constructor; assumption.
  - inversion U as [|? ? Hx Ub]; subst. constructor.
    + intros G. apply in_app_or in G as [G|[G|G]].
      * apply Hx, in_or_app; auto.
      * apply Fb. auto.
      * apply Hx, in_or_app; auto.
    + apply IH; auto.
Qed.

(** C5.  [edit_phone] can end with two equal phones where it started with
    none: it writes the new value over the old one without looking for it
    among the other phones, which [add_phone] does. *)
Theorem edit_phone_makes_duplicate :
  let r := Rec.mk (mkField "Bob")
             [mkField "1111111111"; mkField "2222222222"] None in
  Spec.unique_phones r
  /\ exists r',
       Rec.edit_phone "1111111111" "2222222222" r = (Ok tt, r')
       /\ Rec.phone_values r' = ["2222222222"; "2222222222"]%string
       /\ ~ Spec.unique_phones r'.
Proof.
  simpl. split.
  - unfold Spec.unique_phones. simpl.
    repeat constructor; simpl; intuition discriminate.
  - eexists. split; [reflexivity|]. split; [reflexivity|].
    unfold Spec.unique_phones. simpl. intros U.
    inversion U as [|? ? N _]; subst. apply N. simpl. auto.
Qed.

(** ** Editing, then finding *)

(** C6.  When [old] is the value of exactly one phone of the record and
    [new] is another string, of any shape, [edit_phone old new] succeeds,
    after which [find_phone new] returns [new] and [find_phone old] raises
    the bare [ValueError] of a phone not found; when no phone has the value
    [old], [edit_phone] raises that error and leaves the record as it is. *)
Theorem edit_phone_find_phone (self : Rec.t) (old new : string) :
  (count_occ string_dec (Rec.phone_values self) old = 1%nat ->
   new <> old ->
   exists self',
     Rec.edit_phone old new self = (Ok tt, self')
     /\ Rec.find_phone new self' = (Ok new, self')
     /\ Rec.find_phone old self' = (Raise (Exn ValueError Bare), self'))
  /\ (~ In old (Rec.phone_values self) ->
      Rec.edit_phone old new self = (Raise (Exn ValueError Bare), self)).
Proof.
  unfold Rec.phone_values. split.
  - intros C N.
    assert (P : Rec.present old (Rec.phones self) = true).
    { apply present_In. apply (count_occ_In string_dec). lia. }
    destruct (edit_first_present old new _ P) as [l' E].
    destruct (edit_first_values _ _ _ _ E) as (b & a & H1 & Hb & H2).
    rewrite H1 in C. apply count_occ_once_split in C as [_ Ha].
    exists (Rec.with_phones self l').
    unfold Rec.edit_phone, Rec.find_phone. rewrite E. simpl.
    rewrite !find_first_present.
    assert (Pn : Rec.present new l' = true).
    { apply present_In. rewrite H2. apply in_or_app. right. left. reflexivity. }
    assert (Po : Rec.present old l' = false).
    { apply present_false. rewrite H2. intros G.
      apply in_app_or in G as [G|[G|G]]; [auto | congruence | auto]. }
    rewrite Pn, Po. auto.
  - intros A. apply present_false in A.
    unfold Rec.edit_phone. now rewrite (edit_first_absent old new _ A).
Qed.

Lemma edit_phone_find_phone_witness :
  (exists self',
     Rec.edit_phone "1111111111" "n/a"
       (Rec.mk (mkField "Bob") [mkField "1111111111"; mkField "2222222222"] None)
     = (Ok tt, self')
     /\ Rec.find_phone "n/a" self' = (Ok "n/a"%string, self')
     /\ Rec.find_phone "1111111111" self' = (Raise (Exn ValueError Bare), self'))
  /\ Rec.edit_phone "3333333333" "n/a"
       (Rec.mk (mkField "Bob") [mkField "1111111111"; mkField "2222222222"] None)
     = (Raise (Exn ValueError Bare),
        Rec.mk (mkField "Bob") [mkField "1111111111"; mkField "2222222222"] None).
Proof.
  split.
  - apply (proj1 (edit_phone_find_phone
                    (Rec.mk (mkField "Bob")
                       [mkField "1111111111"; mkField "2222222222"] None)
                    "1111111111" "n/a")).
    + reflexivity.
    + discriminate.
  - apply (proj2 (edit_phone_find_phone
                    (Rec.mk (mkField "Bob")
                       [mkField "1111111111"; mkField "2222222222"] None)
                    "3333333333" "n/a")).
    simpl. intros [H|[H|H]]; [discriminate H | discriminate H | exact H].
Defined.

(** ** Adding a phone *)



(** ** Dates *)

Section Dates.

Import Datetime.

Lemma check_date_fields_real (y m d : Z) :
  check_date_fields y m d
  = if Spec.real_date y m d then Ok (Date y m d)
    else Raise (Exn ValueError LibraryText).
Proof.
  unfold check_date_fields, Spec.real_date.
  destruct (MINYEAR <=? y), (y <=? MAXYEAR), (1 <=? m), (m <=? 12),
    (1 <=? d), (d <=? days_in_month y m); reflexivity.
Qed.

Lemma real_date_bounds (y m d : Z) :
  Spec.real_date y m d = true ->
  1 <= y <= 9999 /\ 1 <= m <= 12 /\ 1 <= d <= days_in_month y m.
Proof.
  unfold Spec.real_date, MINYEAR, MAXYEAR. intros H.
  repeat (apply andb_prop in H as [H ?]). lia.
Qed.

Lemma month_cases (m : Z) :
  1 <= m <= 12 ->
  m = 1 \/ m = 2 \/ m = 3 \/ m = 4 \/ m = 5 \/ m = 6
  \/ m = 7 \/ m = 8 \/ m = 9 \/ m = 10 \/ m = 11 \/ m = 12.
Proof. lia. Qed.

(** The day of the year of a real date. *)
Lemma day_of_year_bounds (y m d : Z) :
  1 <= m <= 12 -> 1 <= d <= days_in_month y m ->
  1 <= days_before_month y m + d <= 365 + (if is_leap y then 1 else 0).
Proof.
  intros Hm Hd. unfold days_in_month, days_before_month in *.
  destruct (month_cases m Hm) as
    [->|[->|[->|[->|[->|[->|[->|[->|[->|[->|[->| ->]]]]]]]]]]];
    destruct (is_leap y);
    match goal with
    | Hd : _ <= d <= ?a |- _ <= ?b + d <= ?c =>
        let a' := eval vm_compute in a in
        let b' := eval vm_compute in b in
        let c' := eval vm_compute in c in
        change a with a' in Hd; change (1 <= b' + d <= c')
    end; lia.
Qed.

Lemma days_before_year_bounds (y : Z) :
  1 <= y <= 9999 ->
  0 <= days_before_year y
  /\ days_before_year y + 365 + (if is_leap y then 1 else 0) <= MAXORDINAL.
Proof.
  intros Hy. unfold days_before_year, MAXORDINAL, is_leap.
  destruct (y mod 4 =? 0) eqn:E; simpl.
  - apply Z.eqb_eq in E.
    destruct (negb (y mod 100 =? 0) || (y mod 400 =? 0));
      Z.div_mod_to_equations; lia.
  - Z.div_mod_to_equations; lia.
Qed.

Lemma toordinal_bounds (y m d : Z) :
  Spec.real_date y m d = true ->
  1 <= toordinal (Date y m d) <= MAXORDINAL.
Proof.
  intros H. apply real_date_bounds in H as (Hy & Hm & Hd).
  pose proof (day_of_year_bounds y m d Hm Hd).
  pose proof (days_before_year_bounds y Hy).
  unfold toordinal, ymd2ord. simpl. lia.
Qed.

Lemma weekday_range (c : date) : 0 <= weekday c < 7.
Proof. unfold weekday. apply Z.mod_pos_bound. lia. Qed.

(** The Monday after a Saturday or a Sunday is never past the last day
    [date] can hold: [add_days] does not overflow there. *)
Lemma add_days_weekend (c : date) (n : Z) :
  1 <= toordinal c <= MAXORDINAL ->
  weekday c = 7 - n -> 1 <= n <= 2 ->
  add_days c n = Ok (fromordinal (toordinal c + n)).
Proof.
  unfold add_days, weekday, MAXORDINAL. intros B W N.
  assert (H : (0 <? toordinal c + n) && (toordinal c + n <=? 3652059) = true).
  { apply andb_true_intro. split; [apply Z.ltb_lt | apply Z.leb_le].
    - lia.
    - revert W. generalize (toordinal c) B. intros o Bo W.
      Z.div_mod_to_equations. lia. }
  now rewrite H.
Qed.

Lemma candidate_real (today : date) (b : datetime) (c : date) :
  Spec.candidate today b = Some c ->
  Spec.real_date (year c) (month c) (day c) = true.
Proof.
  unfold Spec.candidate.
  destruct (Spec.real_date (year today) _ _) eqn:R1; [|discriminate].
  destruct (date_ltb _ today).
  - destruct (Spec.real_date (year today + 1) _ _) eqn:R2; [|discriminate].
    intros H. injection H as <-. exact R2.
  - intros H. injection H as <-. exact R1.
Qed.

(** From the year 1000 on, [strftime] writes the year on four digits. *)
Lemma strftime_four_digits (y m d : Z) :
  1000 <= y ->
  strftime_dmY (Date y m d)
  = (Str.pad2 d ++ "." ++ Str.pad2 m ++ "." ++ Str.pad4 y)%string.
Proof.
  intros H. unfold strftime_dmY, Str.decimal. cbn [year month day].
  destruct (Z.ltb_spec y 10); [lia|].
  destruct (Z.ltb_spec y 100); [lia|].
  destruct (Z.ltb_spec y 1000); [lia|]. reflexivity.
Qed.

(** The date the loop computes is the candidate date of the birthday; the
    loop raises [ValueError] when there is none. *)
Lemma this_or_next_candidate (today : date) (b : datetime) :
  AddressBook.this_or_next today b
  = match Spec.candidate today b with
    | Some c => Ok c
    | None => Raise (Exn ValueError LibraryText)
    end.
Proof.
  unfold AddressBook.this_or_next, Spec.candidate, replace_year, date_of.
  rewrite check_date_fields_real.
  destruct (Spec.real_date (year today) _ _); simpl; [|reflexivity].
  destruct (date_ltb _ today); [|reflexivity].
  rewrite check_date_fields_real.
  destruct (Spec.real_date (year today + 1) _ _); reflexivity.
Qed.

(** What the body of the loop gives for one record. *)
Lemma entry_candidate (today : date) (record : Rec.t) :
  AddressBook.entry today record
  = match Rec.birthday record with
    | None => Ok None
    | Some b =>
        match Spec.candidate today (value b) with
        | None => Raise (Exn ValueError LibraryText)
        | Some c =>
            if 7 <? days_between c today then Ok None
            else Ok (Some (strftime_dmY (Spec.congratulation c)))
        end
    end.
Proof.
  unfold AddressBook.entry. destruct (Rec.birthday record) as [b|]; [|reflexivity].
  rewrite this_or_next_candidate.
  destruct (Spec.candidate today (value b)) as [c|] eqn:C; [|reflexivity].
  simpl. unfold AddressBook.check_period.
  destruct (7 <? days_between c today); [reflexivity|].
  apply candidate_real in C. destruct c as [y m d]. simpl in C.
  pose proof (toordinal_bounds y m d C) as B.
  pose proof (weekday_range (Date y m d)) as W.
  unfold Spec.congratulation.
  destruct (weekday (Date y m d) <? 5) eqn:L.
  - apply Z.ltb_lt in L.
    destruct (Z.eqb_spec (weekday (Date y m d)) 5); [lia|].
    destruct (Z.eqb_spec (weekday (Date y m d)) 6); [lia|]. reflexivity.
  - apply Z.ltb_ge in L.
    destruct (Z.eqb_spec (weekday (Date y m d)) 5) as [E|E].
    + rewrite (add_days_weekend _ 2 B); [reflexivity | lia | lia].
    + destruct (Z.eqb_spec (weekday (Date y m d)) 6) as [E6|E6]; [|lia].
      rewrite (add_days_weekend _ 1 B); [reflexivity | lia | lia].
Qed.

End Dates.

(** ** The calendar *)

Section Calendar.

Import Datetime.

Lemma days_before_year_split (a b c e : Z) :
  0 <= b <= 3 -> 0 <= c <= 24 -> 0 <= e <= 3 ->
  days_before_year (400 * a + 100 * b + 4 * c + e + 1)
  = DI400Y * a + DI100Y * b + DI4Y * c + 365 * e.
Proof.
  intros Hb Hc He. unfold days_before_year, DI400Y, DI100Y, DI4Y.
  replace (400 * a + 100 * b + 4 * c + e + 1 - 1)
    with (400 * a + 100 * b + 4 * c + e) by lia.
  Z.div_mod_to_equations. lia.
Qed.

Lemma is_leap_split (a b c e : Z) :
  0 <= b <= 3 -> 0 <= c <= 24 -> 0 <= e <= 3 ->
  is_leap (400 * a + 100 * b + 4 * c + e + 1)
  = (e =? 3) && (negb (c =? 24) || (b =? 3)).
Proof.
  intros Hb Hc He. unfold is_leap.
  set (y := 400 * a + 100 * b + 4 * c + e + 1).
  assert (M4 : (y mod 4 =? 0) = (e =? 3)).
  { destruct (Z.eqb_spec e 3); [apply Z.eqb_eq | apply Z.eqb_neq];
      unfold y; Z.div_mod_to_equations; lia. }
  assert (M100 : (y mod 100 =? 0) = (e =? 3) && (c =? 24)).
  { destruct (Z.eqb_spec e 3); destruct (Z.eqb_spec c 24); simpl;
      [apply Z.eqb_eq | apply Z.eqb_neq ..];
      unfold y; Z.div_mod_to_equations; lia. }
  assert (M400 : (y mod 400 =? 0) = (e =? 3) && (c =? 24) && (b =? 3)).
  { destruct (Z.eqb_spec e 3); destruct (Z.eqb_spec c 24);
      destruct (Z.eqb_spec b 3); simpl;
      [apply Z.eqb_eq | apply Z.eqb_neq ..];
      unfold y; Z.div_mod_to_equations; lia. }
  rewrite M4, M100, M400.
  destruct (e =? 3), (c =? 24), (b =? 3); reflexivity.
Qed.

(** The last day of a cycle of four years, of a hundred, of four hundred. *)
Lemma ymd2ord_december (y : Z) :
  ymd2ord y 12 31 = days_before_year y + 365 + (if is_leap y then 1 else 0).
Proof.
  unfold ymd2ord, days_before_month.
  change (nth (Z.to_nat 12) DAYS_BEFORE_MONTH 0) with 334.
  change (2 <? 12) with true. simpl andb. lia.
Qed.

(** Looks the tables up and decides the comparisons of two numerals. *)
Ltac tables :=
  repeat match goal with
         | |- context [nth (Z.to_nat ?k) ?t 0] =>
             let v := eval vm_compute in (nth (Z.to_nat k) t 0) in
             lazymatch v with
             | Z0 => idtac | Zpos _ => idtac | Zneg _ => idtac
             end;
             change (nth (Z.to_nat k) t 0) with v
         | |- context [?a <? ?b] =>
             let v := eval vm_compute in (a <? b) in
             lazymatch v with true => idtac | false => idtac end;
             change (a <? b) with v
         | |- context [?a =? ?b] =>
             let v := eval vm_compute in (a =? b) in
             lazymatch v with true => idtac | false => idtac end;
             change (a =? b) with v
         end;
  cbv beta iota delta [andb].

(** The month and the day of the [n]-th day of a year, from 0. *)
Lemma month_day_of (y n : Z) (leap : bool) :
  is_leap y = leap ->
  0 <= n < 365 + (if leap then 1 else 0) ->
  let month := Z.shiftr (n + 50) 5 in
  let preceding :=
    nth (Z.to_nat month) DAYS_BEFORE_MONTH 0
    + (if (2 <? month) && leap then 1 else 0) in
  let '(y', m, d) :=
    if n <? preceding then
      let month := month - 1 in
      let preceding :=
        preceding
        - (nth (Z.to_nat month) DAYS_IN_MONTH 0
           + (if (month =? 2) && leap then 1 else 0)) in
      (y, month, n - preceding + 1)
    else (y, month, n - preceding + 1) in
  y' = y /\ days_before_month y m + d = n + 1
  /\ 1 <= m <= 12 /\ 1 <= d <= days_in_month y m.
Proof.
  intros L B. rewrite Z.shiftr_div_pow2 by lia. change (2 ^ 5) with 32.
  unfold days_before_month, days_in_month. rewrite L.
  assert (Q : 1 <= (n + 50) / 32 <= 13)
    by (destruct leap; Z.div_mod_to_equations; lia).
  assert (C : (n + 50) / 32 = 1 \/ (n + 50) / 32 = 2 \/ (n + 50) / 32 = 3
              \/ (n + 50) / 32 = 4 \/ (n + 50) / 32 = 5 \/ (n + 50) / 32 = 6
              \/ (n + 50) / 32 = 7 \/ (n + 50) / 32 = 8 \/ (n + 50) / 32 = 9
              \/ (n + 50) / 32 = 10 \/ (n + 50) / 32 = 11 \/ (n + 50) / 32 = 12
              \/ (n + 50) / 32 = 13) by lia.
  destruct C as [C|[C|[C|[C|[C|[C|[C|[C|[C|[C|[C|[C|C]]]]]]]]]]]];
    rewrite C; destruct leap; tables;
    match goal with
    | |- context [n <? ?p] => destruct (Z.ltb_spec n p)
    end; cbv beta iota zeta; tables;
    (split; [reflexivity|]); try (Z.div_mod_to_equations; lia).
Qed.

(** [fromordinal] is the inverse of [toordinal]: the date it gives is a
    real one, and its ordinal is the number it was given. *)
Lemma ord2ymd_ymd2ord (n : Z) :
  1 <= n ->
  let '(y, m, d) := ord2ymd n in
  ymd2ord y m d = n /\ 1 <= m <= 12 /\ 1 <= d <= days_in_month y m.
Proof.
  intros Hn. unfold ord2ymd.
  remember ((n - 1) / DI400Y) as a eqn:Ea.
  remember ((n - 1) mod DI400Y) as r400 eqn:Er400.
  remember (r400 / DI100Y) as b eqn:Eb.
  remember (r400 mod DI100Y) as r100 eqn:Er100.
  remember (r100 / DI4Y) as c eqn:Ec.
  remember (r100 mod DI4Y) as r4 eqn:Er4.
  remember (r4 / 365) as e eqn:Ee.
  remember (r4 mod 365) as r1 eqn:Er1.
  unfold DI400Y, DI100Y, DI4Y in *.
  assert (F : n - 1 = 146097 * a + 36524 * b + 1461 * c + 365 * e + r1
              /\ 0 <= a /\ 0 <= b <= 4 /\ 0 <= c <= 24 /\ 0 <= e <= 4
              /\ 0 <= r1 < 365
              /\ r400 = 36524 * b + r100 /\ r100 = 1461 * c + r4
              /\ r4 = 365 * e + r1
              /\ 0 <= r400 < 146097 /\ 0 <= r100 < 36524 /\ 0 <= r4 < 1461).
  { subst. Z.div_mod_to_equations. lia. }
  destruct F as (F & Ha & Hb & Hc & He & Hr1 & F400 & F100 & F4 & B400 & B100 & B4).
  clear Ea Er400 Eb Er100 Ec Er4 Ee Er1.
  destruct ((e =? 4) || (b =? 4)) eqn:Last;
    [apply orb_true_iff in Last as [E4|B4']; [apply Z.eqb_eq in E4|apply Z.eqb_eq in B4']
    |apply orb_false_iff in Last as [E4 B4']; apply Z.eqb_neq in E4, B4'].
  - (* the last day of a leap year that ends four years *)
    replace (a * 400 + 1 + b * 100 + c * 4 + e - 1)
      with (400 * a + 100 * b + 4 * c + 3 + 1) by lia.
    assert (Hb3 : 0 <= b <= 3) by lia.
    assert (Hc3 : 0 <= c <= 23) by lia.
    rewrite ymd2ord_december, days_before_year_split, is_leap_split by lia.
    unfold days_in_month. rewrite is_leap_split by lia. tables.
    destruct (Z.eqb_spec c 24); [lia|]. cbv beta iota delta [negb orb andb].
    unfold DI400Y, DI100Y, DI4Y. lia.
  - (* the last day of a cycle of four hundred years *)
    replace (a * 400 + 1 + b * 100 + c * 4 + e - 1)
      with (400 * a + 100 * 3 + 4 * 24 + 3 + 1) by lia.
    rewrite ymd2ord_december, days_before_year_split, is_leap_split by lia.
    unfold days_in_month. rewrite is_leap_split by lia. tables.
    cbv beta iota delta [negb orb andb].
    unfold DI400Y, DI100Y, DI4Y. lia.
  - replace (a * 400 + 1 + b * 100 + c * 4 + e)
      with (400 * a + 100 * b + 4 * c + e + 1) by lia.
    set (y := 400 * a + 100 * b + 4 * c + e + 1).
    assert (L : is_leap y = (e =? 3) && (negb (c =? 24) || (b =? 3)))
      by (apply is_leap_split; lia).
    assert (R : 0 <= r1 < 365 + (if is_leap y then 1 else 0))
      by (destruct (is_leap y); lia).
    pose proof (month_day_of y r1 (is_leap y) eq_refl R) as P.
    rewrite <- L. cbv zeta in P.
    destruct (if r1 <? _ then _ else _) as [[y' m] d].
    destruct P as (-> & P & Hm & Hd).
    split; [|auto]. unfold ymd2ord.
    unfold y at 1. rewrite days_before_year_split by lia.
    unfold DI400Y, DI100Y, DI4Y. lia.
Qed.

Lemma toordinal_fromordinal (n : Z) : 1 <= n -> toordinal (fromordinal n) = n.
Proof.
  intros H. pose proof (ord2ymd_ymd2ord n H) as P.
  unfold toordinal, fromordinal. destruct (ord2ymd n) as [[y m] d]. apply P.
Qed.


(** The Monday after: a Saturday moved two days on and a Sunday moved one
    day on are Mondays, that many days later. *)
Lemma congratulation_monday (c : date) :
  1 <= toordinal c ->
  (weekday c = 5 \/ weekday c = 6) ->
  toordinal (Spec.congratulation c) = toordinal c + (7 - weekday c)
  /\ weekday (Spec.congratulation c) = 0.
Proof.
  intros B W. unfold Spec.congratulation.
  destruct (Z.eqb_spec (weekday c) 5) as [E5|E5].
  - unfold weekday in *. rewrite toordinal_fromordinal by lia.
    split; [lia|]. Z.div_mod_to_equations. lia.
  - destruct (Z.eqb_spec (weekday c) 6) as [E6|E6]; [|lia].
    unfold weekday in *. rewrite toordinal_fromordinal by lia.
    split; [lia|]. Z.div_mod_to_equations. lia.
Qed.

Lemma congratulation_weekday (c : date) :
  weekday c < 5 -> Spec.congratulation c = c.
Proof.
  intros W. unfold Spec.congratulation.
  destruct (Z.eqb_spec (weekday c) 5); [lia|].
  destruct (Z.eqb_spec (weekday c) 6); [lia|]. reflexivity.
Qed.

(** A year has 365 days, 366 when it is a leap year. *)
Lemma days_before_year_next (y : Z) :
  days_before_year (y + 1)
  = days_before_year y + 365 + (if is_leap y then 1 else 0).
Proof.
  unfold days_before_year, is_leap.
  replace (y + 1 - 1) with y by lia.
  destruct (Z.eqb_spec (y mod 4) 0) as [E4|E4];
    destruct (Z.eqb_spec (y mod 100) 0) as [E100|E100];
    destruct (Z.eqb_spec (y mod 400) 0) as [E400|E400];
    cbv beta iota delta [negb orb andb]; Z.div_mod_to_equations; lia.
Qed.

Lemma days_before_year_later (y k : Z) :
  0 <= k -> days_before_year y + 365 * k <= days_before_year (y + k).
Proof.
  intros H. revert k H.
  apply (natlike_ind
           (fun k => days_before_year y + 365 * k <= days_before_year (y + k))).
  - replace (y + 0) with y by lia. lia.
  - intros k Hk IH. replace (y + Z.succ k) with (y + k + 1) by lia.
    rewrite days_before_year_next. destruct (is_leap (y + k)); lia.
Qed.

Lemma days_before_month_next (y m : Z) :
  1 <= m <= 11 ->
  days_before_month y (m + 1) = days_before_month y m + days_in_month y m.
Proof.
  intros Hm. unfold days_before_month, days_in_month.
  assert (C : m = 1 \/ m = 2 \/ m = 3 \/ m = 4 \/ m = 5 \/ m = 6 \/ m = 7
              \/ m = 8 \/ m = 9 \/ m = 10 \/ m = 11) by lia.
  destruct C as [->|[->|[->|[->|[->|[->|[->|[->|[->|[->| ->]]]]]]]]]];
    destruct (is_leap y); tables; reflexivity.
Qed.

Lemma days_before_month_later (y m k : Z) :
  1 <= m -> 0 <= k -> m + k <= 12 ->
  days_before_month y m + 28 * k <= days_before_month y (m + k).
Proof.
  intros Hm Hk. revert k Hk.
  apply (natlike_ind
           (fun k => m + k <= 12 ->
                     days_before_month y m + 28 * k
                     <= days_before_month y (m + k))).
  - replace (m + 0) with m by lia. lia.
  - intros k Hk IH H. replace (m + Z.succ k) with (m + k + 1) by lia.
    rewrite days_before_month_next by lia.
    assert (28 <= days_in_month y (m + k)).
    { unfold days_in_month.
      assert (C : m + k = 1 \/ m + k = 2 \/ m + k = 3 \/ m + k = 4 \/ m + k = 5
                  \/ m + k = 6 \/ m + k = 7 \/ m + k = 8 \/ m + k = 9
                  \/ m + k = 10 \/ m + k = 11) by lia.
      destruct C as [->|[->|[->|[->|[->|[->|[->|[->|[->|[->| ->]]]]]]]]]];
        destruct (is_leap y); tables; lia. }
    specialize (IH ltac:(lia)). lia.
Qed.

(** The ordinal follows the order of the dates. *)
Lemma toordinal_le (a b : date) :
  Spec.real_date (year a) (month a) (day a) = true ->
  Spec.real_date (year b) (month b) (day b) = true ->
  date_ltb a b = false ->
  toordinal b <= toordinal a.
Proof.
  destruct a as [ya ma da], b as [yb mb db]. simpl. intros Ra Rb L.
  apply real_date_bounds in Ra as (Hya & Hma & Hda).
  apply real_date_bounds in Rb as (Hyb & Hmb & Hdb).
  unfold date_ltb in L. simpl in L.
  apply orb_false_iff in L as [L1 L2]. apply Z.ltb_ge in L1.
  unfold toordinal, ymd2ord. simpl.
  pose proof (day_of_year_bounds ya ma da Hma Hda) as Da.
  pose proof (day_of_year_bounds yb mb db Hmb Hdb) as Db.
  destruct (Z.eqb_spec ya yb) as [E|E].
  - subst yb. simpl in L2. apply orb_false_iff in L2 as [L2 L3].
    apply Z.ltb_ge in L2.
    destruct (Z.eqb_spec ma mb) as [Em|Em].
    + subst mb. simpl in L3. apply Z.ltb_ge in L3. lia.
    + clear L3.
      pose proof (days_before_month_later ya (mb + 1) (ma - mb - 1)
                    ltac:(lia) ltac:(lia) ltac:(lia)) as Q.
      replace (mb + 1 + (ma - mb - 1)) with ma in Q by lia.
      rewrite days_before_month_next in Q by lia. lia.
  - pose proof (days_before_year_later (yb + 1) (ya - yb - 1) ltac:(lia)) as Q.
    replace (yb + 1 + (ya - yb - 1)) with ya in Q by lia.
    rewrite days_before_year_next in Q. lia.
Qed.

(** The candidate date is today or a later day. *)
Lemma candidate_not_before (today : date) (b : datetime) (c : date) :
  Spec.real_date (year today) (month today) (day today) = true ->
  Spec.candidate today b = Some c ->
  0 <= days_between c today.
Proof.
  intros T. unfold Spec.candidate, days_between.
  destruct (Spec.real_date (year today) (month (dt_date b)) (day (dt_date b)))
    eqn:R1; [|discriminate].
  destruct (date_ltb _ today) eqn:L.
  - destruct (Spec.real_date (year today + 1) _ _) eqn:R2; [|discriminate].
    intros H. injection H as <-.
    assert (toordinal today <= toordinal (Date (year today + 1) (month (dt_date b)) (day (dt_date b)))).
    { apply toordinal_le; auto. unfold date_ltb. cbn [year month day].
      assert (N1 : (year today + 1 <? year today) = false) by (apply Z.ltb_ge; lia).
      assert (N2 : (year today + 1 =? year today) = false) by (apply Z.eqb_neq; lia).
      now rewrite N1, N2. }
    lia.
  - intros H. injection H as <-.
    pose proof (toordinal_le
                  (Date (year today) (month (dt_date b)) (day (dt_date b)))
                  today R1 T L).
    lia.
Qed.

(** The congratulation date is the candidate date moved on by [shift]
    days. *)
Lemma congratulation_shift (c : date) :
  Spec.real_date (year c) (month c) (day c) = true ->
  days_between (Spec.congratulation c) c = Spec.shift c.
Proof.
  intros R. destruct c as [y m d]. simpl in R.
  pose proof (toordinal_bounds y m d R) as B.
  pose proof (weekday_range (Date y m d)) as W.
  unfold days_between, Spec.shift.
  destruct (Z.eqb_spec (weekday (Date y m d)) 5) as [E5|E5].
  - destruct (congratulation_monday (Date y m d)) as [H _]; lia.
  - destruct (Z.eqb_spec (weekday (Date y m d)) 6) as [E6|E6].
    + destruct (congratulation_monday (Date y m d)) as [H _]; lia.
    + rewrite congratulation_weekday by lia. lia.
Qed.

(** The years of the ordinals from 1 to [MAXORDINAL]. *)
Lemma days_before_year_low (y : Z) : y <= 0 -> days_before_year y <= -366.
Proof.
  intros H. unfold days_before_year. Z.div_mod_to_equations. lia.
Qed.

Lemma days_before_year_high (y : Z) :
  10000 <= y -> MAXORDINAL <= days_before_year y.
Proof.
  intros H. unfold days_before_year, MAXORDINAL. Z.div_mod_to_equations. lia.
Qed.

(** [fromordinal] gives a real date. *)
Lemma fromordinal_real (n : Z) :
  1 <= n <= MAXORDINAL ->
  Spec.real_date (year (fromordinal n)) (month (fromordinal n))
    (day (fromordinal n)) = true.
Proof.
  intros [L U]. pose proof (ord2ymd_ymd2ord n L) as P. unfold fromordinal.
  destruct (ord2ymd n) as [[y m] d]. cbn [year month day].
  destruct P as (E & Bm & Bd).
  pose proof (day_of_year_bounds y m d Bm Bd) as B. unfold ymd2ord in E.
  assert (B' : 1 <= days_before_month y m + d <= 366)
    by (destruct (is_leap y); lia).
  assert (Y : 1 <= y <= 9999).
  { split.
    - destruct (Z.le_gt_cases y 0) as [H|H]; [|lia].
      pose proof (days_before_year_low y H). lia.
    - destruct (Z.le_gt_cases 10000 y) as [H|H]; [|lia].
      pose proof (days_before_year_high y H). lia. }
  unfold Spec.real_date, MINYEAR, MAXYEAR.
  repeat (apply andb_true_intro; split); apply Z.leb_le; lia.
Qed.

(** The date of the congratulation is a real date. *)
Lemma congratulation_real (c : date) :
  Spec.real_date (year c) (month c) (day c) = true ->
  Spec.real_date (year (Spec.congratulation c)) (month (Spec.congratulation c))
    (day (Spec.congratulation c)) = true.
Proof.
  intros R.
  assert (B : 1 <= toordinal c <= MAXORDINAL).
  { destruct c as [y m d]. apply (toordinal_bounds y m d R). }
  unfold Spec.congratulation.
  destruct (Z.eqb_spec (weekday c) 5) as [E5|E5].
  - apply fromordinal_real. unfold weekday, MAXORDINAL in *.
    revert E5. generalize (toordinal c) B. intros o Bo E5.
    Z.div_mod_to_equations. lia.
  - destruct (Z.eqb_spec (weekday c) 6) as [E6|E6]; [|exact R].
    apply fromordinal_real. unfold weekday, MAXORDINAL in *.
    revert E6. generalize (toordinal c) B. intros o Bo E6.
    Z.div_mod_to_equations. lia.
Qed.

(** A real date that is not before another one is not in an earlier year. *)
Lemma toordinal_year (a b : date) :
  Spec.real_date (year a) (month a) (day a) = true ->
  Spec.real_date (year b) (month b) (day b) = true ->
  toordinal a <= toordinal b -> year a <= year b.
Proof.
  destruct a as [ya ma da], b as [yb mb db]. cbn [year month day].
  intros Ra Rb L.
  apply real_date_bounds in Ra as (Hya & Hma & Hda).
  apply real_date_bounds in Rb as (Hyb & Hmb & Hdb).
  pose proof (day_of_year_bounds ya ma da Hma Hda) as Da.
  pose proof (day_of_year_bounds yb mb db Hmb Hdb) as Db.
  unfold toordinal, ymd2ord in L. cbn [year month day] in L.
  destruct (Z.le_gt_cases ya yb) as [H|H]; [exact H|exfalso].
  pose proof (days_before_year_next yb) as N.
  pose proof (days_before_year_later (yb + 1) (ya - (yb + 1))) as M.
  replace (yb + 1 + (ya - (yb + 1))) with ya in M by lia.
  assert (0 <= ya - (yb + 1)) by lia.
  specialize (M ltac:(lia)). nia.
Qed.

Lemma candidate_year (today : date) (b : datetime) (c : date) :
  Spec.candidate today b = Some c -> year today <= year c.
Proof.
  unfold Spec.candidate.
  destruct (Spec.real_date (year today) _ _); [|discriminate].
  destruct (date_ltb _ today).
  - destruct (Spec.real_date (year today + 1) _ _); [|discriminate].
    intros H. injection H as <-. simpl. lia.
  - intros H. injection H as <-. simpl. lia.
Qed.

Lemma pad2_digits (n : Z) :
  forallb Str.is_digit (list_ascii_of_string (Str.pad2 n)) = true.
Proof.
  unfold Str.pad2. cbn [list_ascii_of_string forallb].
  assert (D : forall k, Str.is_digit (Str.digit_char (k mod 10)) = true).
  { intros k. pose proof (Z.mod_pos_bound k 10 ltac:(lia)) as B.
    assert (B' : 0 <= k mod 10 <= 9) by lia. revert B'.
    generalize (k mod 10). intros r Br.
    assert (C : r = 0 \/ r = 1 \/ r = 2 \/ r = 3 \/ r = 4 \/ r = 5 \/ r = 6
                \/ r = 7 \/ r = 8 \/ r = 9) by lia.
    destruct C as [->|[->|[->|[->|[->|[->|[->|[->|[->| ->]]]]]]]]];
      reflexivity. }
  now rewrite !D.
Qed.

(** Two digits, a dot, two digits, a dot and four digits are of the form
    [DD.MM.YYYY]. *)
Lemma pad_DD_MM_YYYY (d m y : Z) :
  Spec.DD_MM_YYYY (Str.pad2 d ++ "." ++ Str.pad2 m ++ "." ++ Str.pad4 y)%string
  = true.
Proof.
  pose proof (pad2_digits d) as Dd. pose proof (pad2_digits m) as Dm.
  pose proof (pad2_digits y) as Dy. pose proof (pad2_digits (y / 100)) as Dc.
  unfold Spec.DD_MM_YYYY, Str.pad4, Str.pad2 in *.
  replace (y / 100 / 10 mod 10) with (y / 1000 mod 10) in Dc
    by (rewrite Z.div_div by lia; reflexivity).
  cbn [list_ascii_of_string forallb append] in *.
  repeat match goal with
         | H : _ && _ = true |- _ => apply andb_prop in H as [? H]
         end.
  repeat match goal with
         | H : Str.is_digit _ = true |- _ => rewrite H; clear H
         end.
  reflexivity.
Qed.

(** What is written for a candidate date from the year 1000 on: the date
    of the congratulation, a real date, by day, month and year. *)
Lemma congratulation_text (c : date) :
  Spec.real_date (year c) (month c) (day c) = true -> 1000 <= year c ->
  exists y m d,
    Spec.congratulation c = Date y m d
    /\ Spec.real_date y m d = true
    /\ strftime_dmY (Spec.congratulation c)
       = (Str.pad2 d ++ "." ++ Str.pad2 m ++ "." ++ Str.pad4 y)%string.
Proof.
  intros R Y. pose proof (congratulation_real c R) as R'.
  pose proof (congratulation_shift c R) as S.
  assert (L : toordinal c <= toordinal (Spec.congratulation c)).
  { unfold days_between, Spec.shift in S.
    destruct (weekday c =? 5); [lia|]. destruct (weekday c =? 6); lia. }
  pose proof (toordinal_year c (Spec.congratulation c) R R' L) as Y'.
  destruct (Spec.congratulation c) as [y m d]. cbn [year month day] in *.
  exists y, m, d. split; [reflexivity|]. split; [exact R'|].
  apply strftime_four_digits. lia.
Qed.

End Calendar.

(** ** The pattern of a birthday *)

Section BirthdayText.

Import Datetime.

Lemma range_digit (lo hi c : ascii) (a b : nat) :
  nat_of_ascii lo = (48 + a)%nat -> nat_of_ascii hi = (48 + b)%nat ->
  Str.in_range lo hi c = true ->
  exists k, Z.of_nat a <= k <= Z.of_nat b /\ c = Str.digit_char k.
Proof.
  intros Hlo Hhi H. unfold Str.in_range in H. rewrite Hlo, Hhi in H.
  apply andb_prop in H as [A B]. apply Nat.leb_le in A, B.
  exists (Z.of_nat (nat_of_ascii c) - 48). split; [lia|].
  unfold Str.digit_char.
  replace (48 + Z.to_nat (Z.of_nat (nat_of_ascii c) - 48))%nat
    with (nat_of_ascii c) by lia.
  symmetry. apply ascii_nat_embedding.
Qed.

Lemma digit_cases (c : ascii) :
  Str.is_digit c = true -> exists k, 0 <= k <= 9 /\ c = Str.digit_char k.
Proof. apply (range_digit "0" "9" c 0 9 eq_refl eq_refl). Qed.

Lemma small_cases (k : Z) :
  0 <= k <= 9 ->
  k = 0 \/ k = 1 \/ k = 2 \/ k = 3 \/ k = 4 \/ k = 5 \/ k = 6 \/ k = 7
  \/ k = 8 \/ k = 9.
Proof. lia. Qed.

Lemma digit_char_digit (k : Z) :
  0 <= k <= 9 ->
  Str.is_digit (Str.digit_char k) = true
  /\ Str.is_space (Str.digit_char k) = false
  /\ Str.is_char "-" (Str.digit_char k) = false
  /\ Str.is_char "+" (Str.digit_char k) = false
  /\ Str.digit_value (Str.digit_char k) = k.
Proof.
  intros H.
  destruct (small_cases k H)
    as [->|[->|[->|[->|[->|[->|[->|[->|[->| ->]]]]]]]]]; repeat split.
Qed.







Lemma digit_facts (c : ascii) :
  Str.is_digit c = true ->
  Str.is_space c = false
  /\ Str.is_char "-" c = false
  /\ Str.is_char "+" c = false
  /\ 0 <= Str.digit_value c <= 9
  /\ c = Str.digit_char (Str.digit_value c).
Proof.
  intros H. destruct (digit_cases c H) as (k & B & ->).
  destruct (digit_char_digit k B) as (_ & S & M & P & V).
  rewrite V. auto.
Qed.

Lemma digit_blank (c : ascii) : Str.is_digit c = true -> Str.is_blank c = false.
Proof.
  intros H. destruct (digit_cases c H) as (k & B & ->).
  destruct (small_cases k B)
    as [->|[->|[->|[->|[->|[->|[->|[->|[->| ->]]]]]]]]]; reflexivity.
Qed.

Lemma digits_length (s : string) : (Str.digits s <= String.length s)%nat.
Proof.
  induction s as [|c s IH]; simpl; [lia|]. destruct (Str.is_digit c); lia.
Qed.

(** [int] on a text of at most 4300 characters. *)
Lemma int_short (s : string) :
  (String.length s <= 4300)%nat -> Str.int s = Str.int_text s.
Proof.
  intros L. unfold Str.int, Str.max_str_digits.
  pose proof (digits_length s) as D.
  destruct (Z.ltb_spec 4300 (Z.of_nat (Str.digits s))) as [H|H]; [lia|].
  reflexivity.
Qed.

(** [int] on four digits. *)
Lemma int_four_digits (c1 c2 c3 c4 : ascii) :
  Str.is_digit c1 = true -> Str.is_digit c2 = true ->
  Str.is_digit c3 = true -> Str.is_digit c4 = true ->
  let y := 1000 * Str.digit_value c1 + 100 * Str.digit_value c2
           + 10 * Str.digit_value c3 + Str.digit_value c4 in
  Str.int (String c1 (String c2 (String c3 (String c4 EmptyString)))) = Some y
  /\ String c1 (String c2 (String c3 (String c4 EmptyString))) = Str.pad4 y
  /\ 0 <= y <= 9999.
Proof.
  intros D1 D2 D3 D4 y.
  destruct (digit_facts c1 D1) as (S1 & M1 & P1 & B1 & E1).
  destruct (digit_facts c2 D2) as (S2 & _ & _ & B2 & E2).
  destruct (digit_facts c3 D3) as (S3 & _ & _ & B3 & E3).
  destruct (digit_facts c4 D4) as (S4 & _ & _ & B4 & E4).
  split; [|split].
  - rewrite int_short by (simpl; lia).
    unfold Str.int_text. cbn [Str.rskip]. rewrite (digit_blank c4 D4).
    cbn [Str.lskip]. rewrite (digit_blank c1 D1), M1, P1.
    cbn [Str.int_unsigned Str.int_digits]. rewrite D1, D2, D3, D4.
    f_equal. unfold y. lia.
  - unfold Str.pad4, Str.pad2.
    replace (y / 1000 mod 10) with (Str.digit_value c1)
      by (unfold y; Z.div_mod_to_equations; lia).
    replace (y / 100 mod 10) with (Str.digit_value c2)
      by (unfold y; Z.div_mod_to_equations; lia).
    replace (y / 10 mod 10) with (Str.digit_value c3)
      by (unfold y; Z.div_mod_to_equations; lia).
    replace (y mod 10) with (Str.digit_value c4)
      by (unfold y; Z.div_mod_to_equations; lia).
    congruence.
  - unfold y. lia.
Qed.





(** Writing a day, a month and a year the ways [strptime] reads them. *)
Ltac enum d n fuel :=
  lazymatch fuel with
  | O => exfalso; lia
  | S ?f =>
      destruct (Z.eq_dec d n) as [->|?];
      [| let n' := eval compute in (n + 1) in enum d n' f]
  end.

Lemma day_match {A} (d : Z) (txt rest : string)
    (k : string -> string -> option A) (r : A) :
  1 <= d <= 31 -> Spec.day_text d txt ->
  k txt (String "." rest) = Some r ->
  Re.group re_d (txt ++ String "." rest) k = Some r /\ Str.int txt = Some d.
Proof.
  intros B T K. enum d 1 31%nat;
    (destruct T as [->|[L [->| ->]]]; [| try (exfalso; lia) ..]);
    (split; [|reflexivity]); vm_compute in K |- *; rewrite K; reflexivity.
Qed.



Lemma month_match {A} (m : Z) (txt rest : string)
    (k : string -> string -> option A) (r : A) :
  1 <= m <= 12 -> Spec.month_text m txt ->
  k txt (String "." rest) = Some r ->
  Re.group re_m (txt ++ String "." rest) k = Some r /\ Str.int txt = Some m.
Proof.
  intros B T K. enum m 1 12%nat;
    (destruct T as [->|[L ->]]; [| try (exfalso; lia) ..]);
    (split; [|reflexivity]); vm_compute in K |- *; rewrite K; reflexivity.
Qed.

Lemma year_match {A} (y : Z) (rest : string)
    (k : string -> string -> option A) (r : A) :
  0 <= y <= 9999 ->
  k (Str.pad4 y) rest = Some r ->
  Re.group re_Y (Str.pad4 y ++ rest) k = Some r /\ Str.int (Str.pad4 y) = Some y.
Proof.
  intros B K. unfold Str.pad4, Str.pad2 in *.
  assert (B1 : 0 <= y / 1000 mod 10 <= 9) by (Z.div_mod_to_equations; lia).
  assert (B2 : 0 <= y / 100 mod 10 <= 9) by (Z.div_mod_to_equations; lia).
  assert (B3 : 0 <= y / 10 mod 10 <= 9) by (Z.div_mod_to_equations; lia).
  assert (B4 : 0 <= y mod 10 <= 9) by (Z.div_mod_to_equations; lia).
  destruct (digit_char_digit _ B1) as (D1 & _ & _ & _ & V1).
  destruct (digit_char_digit _ B2) as (D2 & _ & _ & _ & V2).
  destruct (digit_char_digit _ B3) as (D3 & _ & _ & _ & V3).
  destruct (digit_char_digit _ B4) as (D4 & _ & _ & _ & V4).
  split.
  - unfold re_Y. cbn [Re.group Re.classes append].
    rewrite D1, D2, D3, D4, K. reflexivity.
  - destruct (int_four_digits _ _ _ _ D1 D2 D3 D4) as (I & _ & _).
    rewrite I, V1, V2, V3, V4. f_equal. Z.div_mod_to_equations. lia.
Qed.

Lemma dot_match {A} (rest : string) (k : string -> string -> option A) (r : A) :
  k "."%string rest = Some r ->
  Re.group re_dot (String "." rest) k = Some r.
Proof.
  intros K. unfold re_dot. cbn [Re.group Re.classes].
  change (Str.is_char "." ".") with true. cbv iota. now rewrite K.
Qed.

Lemma days_in_month_most (y m : Z) : 1 <= m <= 12 -> days_in_month y m <= 31.
Proof.
  intros Hm. unfold days_in_month.
  destruct (month_cases m Hm) as
    [->|[->|[->|[->|[->|[->|[->|[->|[->|[->|[->| ->]]]]]]]]]]];
    destruct (is_leap y); vm_compute; discriminate.
Qed.

Lemma strptime_write (d m y : Z) (dtxt mtxt : string) :
  Spec.day_text d dtxt -> Spec.month_text m mtxt ->
  Spec.real_date y m d = true ->
  strptime_dmY (dtxt ++ "." ++ mtxt ++ "." ++ Str.pad4 y)%string
  = Ok (Spec.midnight y m d).
Proof.
  intros Td Tm R.
  destruct (real_date_bounds y m d R) as (By & Bm & Bd).
  pose proof (days_in_month_most y m Bm) as Bmax.
  set (kY := fun (yt r5 : string) => Some (dtxt, mtxt, yt, r5)).
  set (k4 := fun (_ r4 : string) => Re.group re_Y r4 kY).
  set (km := fun (mt r3 : string) =>
               Re.group re_dot r3
                 (fun _ r4 => Re.group re_Y r4 (fun yt r5 => Some (dtxt, mt, yt, r5)))).
  set (k2 := fun (_ r2 : string) => Re.group re_m r2 km).
  set (kd := fun (dt r1 : string) =>
               Re.group re_dot r1
                 (fun _ r2 =>
                    Re.group re_m r2
                      (fun mt r3 =>
                         Re.group re_dot r3
                           (fun _ r4 =>
                              Re.group re_Y r4
                                (fun yt r5 => Some (dt, mt, yt, r5)))))).
  set (res := (dtxt, mtxt, Str.pad4 y, EmptyString)).
  destruct (year_match y EmptyString kY res) as [GY IY]; [lia | reflexivity |].
  assert (G4 : Re.group re_dot (String "." (Str.pad4 y ++ EmptyString)) k4 = Some res).
  { apply dot_match. exact GY. }
  destruct (month_match m mtxt (Str.pad4 y ++ EmptyString) km res Bm Tm G4)
    as [GM IM].
  assert (G2 : Re.group re_dot
                 (String "." (mtxt ++ String "." (Str.pad4 y ++ EmptyString))) k2
               = Some res).
  { apply dot_match. exact GM. }
  destruct (day_match d dtxt (mtxt ++ String "." (Str.pad4 y ++ EmptyString))
              kd res) as [GD ID]; [lia | exact Td | exact G2 |].
  unfold strptime_dmY, match_dmY.
  change (dtxt ++ "." ++ mtxt ++ "." ++ Str.pad4 y)%string
    with (dtxt ++ String "." (mtxt ++ String "." (Str.pad4 y ++ EmptyString)))%string.
  fold kd. rewrite GD. unfold res. rewrite IY, IM, ID, check_date_fields_real, R.
  reflexivity.
Qed.


Lemma strptime_raises (s : string) (e : exn) :
  strptime_dmY s = Raise e -> e = Exn ValueError LibraryText.
Proof.
  unfold strptime_dmY.
  destruct (match_dmY s) as [[[[dtxt mtxt] ytxt] rest]|]; [|congruence].
  destruct rest; [|congruence].
  destruct (Str.int ytxt) as [y|]; [|congruence].
  destruct (Str.int mtxt) as [m|]; [|congruence].
  destruct (Str.int dtxt) as [d|]; [|congruence].
  rewrite check_date_fields_real.
  destruct (Spec.real_date y m d); simpl; congruence.
Qed.

(** A real date written [DD.MM.YYYY] is taken. *)
Lemma Birthday_DD_MM_YYYY (d m y : Z) :
  Spec.real_date y m d = true ->
  Birthday (Str.pad2 d ++ "." ++ Str.pad2 m ++ "." ++ Str.pad4 y)%string
  = Ok (mkField (Spec.midnight y m d)).
Proof.
  intros R. unfold Birthday.
  rewrite (strptime_write d m y (Str.pad2 d) (Str.pad2 m)); auto.
  - now left.
  - now left.
Qed.




End BirthdayText.

(** ** Dictionaries *)

Lemma get_set {V} (k k' : string) (v : V) (d : Dict.t V) :
  Dict.get k (Dict.set k' v d) = if String.eqb k' k then Some v else Dict.get k d.
Proof.
  induction d as [|[k0 v0] d IH]; simpl.
  - reflexivity.
  - destruct (String.eqb_spec k0 k') as [E|E]; simpl.
    + subst k0. destruct (String.eqb k' k); reflexivity.
    + destruct (String.eqb_spec k0 k) as [E0|E0]; [|exact IH].
      subst k0. destruct (String.eqb_spec k' k); [congruence | reflexivity].
Qed.

Lemma get_keys {V} (k : string) (d : Dict.t V) :
  In k (Dict.keys d) <-> exists v, Dict.get k d = Some v.
Proof.
  induction d as [|[k0 v0] d IH]; simpl.
  - split; [tauto | intros [v H]; discriminate H].
  - destruct (String.eqb_spec k0 k) as [E|E].
    + split; [intros _; eexists; reflexivity | auto].
    + rewrite <- IH. split; [intros [H|H]; [contradiction | exact H] | auto].
Qed.

Lemma no_keys_empty {V} (d : Dict.t V) :
  (forall k, ~ In k (Dict.keys d)) -> d = [].
Proof.
  destruct d as [|[k v] d]; [reflexivity|].
  intros H. exfalso. apply (H k). simpl. auto.
Qed.

(** ** The loop of [get_upcoming_birthdays] *)

Section Upcoming.

Import Datetime.

Variable today : date.
Variable book : AddressBook.t.

(** The loop leaves the book as it is.  When it returns, every name it
    went through had a record whose entry was computed, and the dictionary
    holds the entries of the names gone through over what it held; when it
    raises, the exception is the one of a name gone through, or the
    [AttributeError] of a name without a record. *)
Lemma upcoming_loop_spec (names : list string) :
  forall (bdays0 : Dict.t string) (r : outcome (Dict.t string))
         (book' : AddressBook.t),
    AddressBook.upcoming_loop today names bdays0 book = (r, book') ->
    book' = book
    /\ match r with
       | Ok bdays =>
           (forall name, In name names ->
              exists record e,
                Dict.get name (AddressBook.data book) = Some record
                /\ AddressBook.entry today record = Ok e)
           /\ (forall name,
                 Dict.get name bdays
                 = match (if in_dec string_dec name names
                          then Spec.entered today book name else None) with
                   | Some text => Some text
                   | None => Dict.get name bdays0
                   end)
       | Raise e =>
           exists name,
             In name names
             /\ (Dict.get name (AddressBook.data book) = None
                 /\ e = Exn AttributeError LibraryText
                 \/ exists record,
                      Dict.get name (AddressBook.data book) = Some record
                      /\ AddressBook.entry today record = Raise e)
       end.
Proof.
  induction names as [|name rest IH]; intros bdays0 r book' H.
  - injection H as <- <-. split; [reflexivity|]. split.
    + intros name [].
    + intros name. reflexivity.
  - simpl in H. unfold bind, AddressBook.find, lift, raise in H.
    destruct (Dict.get name (AddressBook.data book)) as [record|] eqn:G.
    + destruct (AddressBook.entry today record) as [e|x] eqn:E.
      * assert (S : exists b1,
                   AddressBook.upcoming_loop today rest b1 book = (r, book')
                   /\ forall k, Dict.get k b1
                        = match (if String.eqb name k
                                 then Spec.entered today book name else None) with
                          | Some text => Some text
                          | None => Dict.get k bdays0
                          end).
        { unfold Spec.entered. rewrite G, E. destruct e as [text|].
          - eexists. split; [exact H|]. intros k. rewrite get_set.
            destruct (String.eqb name k); reflexivity.
          - eexists. split; [exact H|]. intros k.
            destruct (String.eqb name k); reflexivity. }
        destruct S as (b1 & H1 & Hb1). clear H.
        destruct (IH b1 r book' H1) as [F R]. split; [exact F|].
        destruct r as [bdays|x]; [|].
        -- destruct R as [R1 R2]. split.
           ++ intros k [<-|K]; [eauto | auto].
           ++ intros k. rewrite R2, Hb1.
              destruct (in_dec string_dec k (name :: rest)) as [I|I];
                destruct (in_dec string_dec k rest) as [J|J];
                destruct (String.eqb_spec name k) as [Q|Q];
                try subst k; simpl in I;
                try (destruct (Spec.entered today book _); reflexivity);
                try reflexivity; tauto.
        -- destruct R as (k & K & R). exists k. split; [right; exact K | exact R].
      * injection H as <- <-. split; [reflexivity|].
        exists name. split; [left; reflexivity|]. right. eauto.
    + injection H as <- <-. split; [reflexivity|].
      exists name. split; [left; reflexivity|]. left. auto.
Qed.

(** The loop returns when every name has a record whose entry is
    computed. *)
Lemma upcoming_loop_returns (names : list string) (bdays0 : Dict.t string) :
  (forall name, In name names ->
     exists record e,
       Dict.get name (AddressBook.data book) = Some record
       /\ AddressBook.entry today record = Ok e) ->
  exists bdays,
    AddressBook.upcoming_loop today names bdays0 book = (Ok bdays, book).
Proof.
  intros A.
  destruct (AddressBook.upcoming_loop today names bdays0 book) as [r book'] eqn:H.
  destruct (upcoming_loop_spec names bdays0 r book' H) as [-> R].
  destruct r as [bdays|x]; [eauto|].
  destruct R as (k & K & R). destruct (A k K) as (record & e & G & E).
  destruct R as [[R _]|(record' & R1 & R2)]; congruence.
Qed.

End Upcoming.

(** ** The upcoming birthdays *)

Section UpcomingBirthdays.

Import Datetime.

Lemma get_upcoming_birthdays_loop (today : date) (book : AddressBook.t) :
  AddressBook.get_upcoming_birthdays today book
  = AddressBook.upcoming_loop today (Dict.keys (AddressBook.data book)) [] book.
Proof. reflexivity. Qed.

Lemma entry_raises (today : date) (record : Rec.t) (e : exn) :
  AddressBook.entry today record = Raise e -> e = Exn ValueError LibraryText.
Proof.
  rewrite entry_candidate.
  destruct (Rec.birthday record) as [b|]; [|discriminate].
  destruct (Spec.candidate today (value b)) as [c|].
  - destruct (7 <? days_between c today); discriminate.
  - congruence.
Qed.

(** What the loop enters for a name is the congratulation date of a record
    that qualifies. *)
Lemma entered_qualifies (today : date) (book : AddressBook.t)
    (name text : string) :
  Spec.entered today book name = Some text
  <-> exists record c,
        Dict.get name (AddressBook.data book) = Some record
        /\ Spec.qualifies today record c
        /\ text = strftime_dmY (Spec.congratulation c).
Proof.
  unfold Spec.entered, Spec.qualifies. split.
  - destruct (Dict.get name (AddressBook.data book)) as [record|]; [|discriminate].
    rewrite entry_candidate.
    destruct (Rec.birthday record) as [b|] eqn:B; [|discriminate].
    destruct (Spec.candidate today (value b)) as [c|] eqn:C; [|discriminate].
    destruct (7 <? days_between c today) eqn:W; [discriminate|].
    intros H. injection H as <-. apply Z.ltb_ge in W.
    exists record, c. split; [reflexivity|]. split; [|reflexivity].
    exists b. auto.
  - intros (record & c & G & (b & B & C & W) & ->).
    rewrite G, entry_candidate, B, C.
    apply Z.ltb_ge in W. now rewrite W.
Qed.

(** Two candidate dates of one record are the same. *)
Lemma qualifies_unique (today : date) (record : Rec.t) (c c' : date) :
  Spec.qualifies today record c -> Spec.qualifies today record c' -> c = c'.
Proof.
  intros (b & B & C & _) (b' & B' & C' & _). congruence.
Qed.

(** C10.  [get_upcoming_birthdays] leaves the book as it was, names,
    records, phones and birthdays, whether it returns or raises. *)
Theorem get_upcoming_birthdays_pure (today : date) (book : AddressBook.t) :
  snd (AddressBook.get_upcoming_birthdays today book) = book.
Proof.
  rewrite get_upcoming_birthdays_loop.
  destruct (AddressBook.upcoming_loop today _ [] book) as [r book'] eqn:H.
  apply upcoming_loop_spec in H as [H _]. exact H.
Qed.

(** C2.  With the clock in the year 1000 or later, in the dictionary
    [get_upcoming_birthdays] returns the name of a record that qualifies
    holds a text of the form [DD.MM.YYYY], two digits, a dot, two digits, a
    dot and four digits, that writes the day, the month and the year of a
    real date: the candidate date of the birthday itself when it is a day
    from Monday to Friday, the day two days after it when it is a Saturday
    and the day after it when it is a Sunday. *)
Theorem congratulation_date (today : date) (book book' : AddressBook.t)
    (bdays : Dict.t string) :
  1000 <= year today ->
  AddressBook.get_upcoming_birthdays today book = (Ok bdays, book') ->
  forall name record c,
    Dict.get name (AddressBook.data book) = Some record ->
    Spec.qualifies today record c ->
    exists y m d,
      Dict.get name bdays
      = Some (Str.pad2 d ++ "." ++ Str.pad2 m ++ "." ++ Str.pad4 y)%string
      /\ Spec.DD_MM_YYYY
           (Str.pad2 d ++ "." ++ Str.pad2 m ++ "." ++ Str.pad4 y)%string
         = true
      /\ Spec.real_date y m d = true
      /\ days_between (Date y m d) c
         = (if weekday c =? 5 then 2 else if weekday c =? 6 then 1 else 0)
      /\ (weekday c < 5 -> Date y m d = c).
Proof.
  rewrite get_upcoming_birthdays_loop. intros Y H name record c G Q.
  assert (T : Dict.get name bdays
              = Some (strftime_dmY (Spec.congratulation c))).
  { apply upcoming_loop_spec in H as [_ [_ H]]. rewrite H.
    destruct (in_dec string_dec name (Dict.keys (AddressBook.data book))) as [I|I].
    - assert (E : Spec.entered today book name
                  = Some (strftime_dmY (Spec.congratulation c))).
      { apply entered_qualifies. eauto. }
      now rewrite E.
    - exfalso. apply I. apply get_keys. eauto. }
  destruct Q as (b & _ & C & _).
  pose proof (candidate_real today (value b) c C) as R.
  pose proof (candidate_year today (value b) c C) as Yc.
  destruct (congratulation_text c R) as (y & m & d & E & R' & F); [lia|].
  exists y, m, d. rewrite T, F. split; [reflexivity|].
  split; [apply pad_DD_MM_YYYY|]. split; [exact R'|].
  rewrite <- E. split.
  - exact (congratulation_shift c R).
  - apply congratulation_weekday.
Qed.

Lemma congratulation_date_witness :
  AddressBook.get_upcoming_birthdays Scenario.today
    (Scenario.book_of [Scenario.bob])
  = (Ok [("Bob", "15.01.2024")%string], Scenario.book_of [Scenario.bob])
  /\ exists y m d,
       Dict.get "Bob" [("Bob", "15.01.2024")%string]
       = Some (Str.pad2 d ++ "." ++ Str.pad2 m ++ "." ++ Str.pad4 y)%string
       /\ Spec.DD_MM_YYYY
            (Str.pad2 d ++ "." ++ Str.pad2 m ++ "." ++ Str.pad4 y)%string
          = true
       /\ Spec.real_date y m d = true
       /\ days_between (Date y m d) (Date 2024 1 13)
          = (if weekday (Date 2024 1 13) =? 5 then 2
             else if weekday (Date 2024 1 13) =? 6 then 1 else 0)
       /\ (weekday (Date 2024 1 13) < 5 -> Date y m d = Date 2024 1 13).
Proof.
  split; [reflexivity|].
  apply (congratulation_date Scenario.today (Scenario.book_of [Scenario.bob])
           (Scenario.book_of [Scenario.bob]) [("Bob", "15.01.2024")%string])
    with (record := Scenario.bob).
  - simpl. lia.
  - reflexivity.
  - reflexivity.
  - exists (mkField (Spec.midnight 1985 1 13)).
    split; [reflexivity|]. split; [reflexivity|]. vm_compute. discriminate.
Defined.

(** C1, as amended.  When every birthday of the book has a candidate date,
    [get_upcoming_birthdays] returns a dictionary whose names are exactly
    the names of the records with a birthday whose candidate date lies at
    most seven days after today; it is empty when no record qualifies, in
    particular for a book without records. *)
Theorem upcoming_birthdays_window (today : date) (book : AddressBook.t) :
  Spec.candidates_exist today book ->
  exists bdays,
    AddressBook.get_upcoming_birthdays today book = (Ok bdays, book)
    /\ (forall name,
          In name (Dict.keys bdays)
          <-> exists record c,
                Dict.get name (AddressBook.data book) = Some record
                /\ Spec.qualifies today record c)
    /\ ((forall name record c,
           Dict.get name (AddressBook.data book) = Some record ->
           ~ Spec.qualifies today record c) ->
        bdays = []).
Proof.
  intros A. rewrite get_upcoming_birthdays_loop.
  destruct (upcoming_loop_returns today book
              (Dict.keys (AddressBook.data book)) []) as [bdays H].
  { intros name I. apply get_keys in I as [record G].
    exists record. rewrite entry_candidate.
    destruct (Rec.birthday record) as [b|] eqn:B; [|eauto].
    specialize (A name record b G B).
    destruct (Spec.candidate today (value b)) as [c|]; [|congruence].
    destruct (7 <? days_between c today); eauto. }
  exists bdays. split; [exact H|].
  apply upcoming_loop_spec in H as [_ [_ H]].
  assert (M : forall name,
             In name (Dict.keys bdays)
             <-> exists record c,
                   Dict.get name (AddressBook.data book) = Some record
                   /\ Spec.qualifies today record c).
  { intros name. rewrite get_keys. split.
    - intros [text T]. rewrite H in T.
      destruct (in_dec string_dec name _); [|discriminate T].
      destruct (Spec.entered today book name) as [t|] eqn:E; [|discriminate T].
      apply entered_qualifies in E as (record & c & G & Q & _). eauto.
    - intros (record & c & G & Q). rewrite H.
      destruct (in_dec string_dec name _) as [I|I].
      + assert (E : Spec.entered today book name
                    = Some (strftime_dmY (Spec.congratulation c))).
        { apply entered_qualifies. eauto. }
        rewrite E. eauto.
      + exfalso. apply I. apply get_keys. eauto. }
  split; [exact M|].
  intros N. apply no_keys_empty. intros k K.
  apply M in K as (record & c & G & Q). exact (N k record c G Q).
Qed.

Lemma upcoming_birthdays_window_witness :
  exists bdays,
    AddressBook.get_upcoming_birthdays Scenario.today
      (Scenario.book_of [Scenario.ann; Scenario.cara])
    = (Ok bdays, Scenario.book_of [Scenario.ann; Scenario.cara])
    /\ In "Ann"%string (Dict.keys bdays)
    /\ ~ In "Cara"%string (Dict.keys bdays).
Proof.
  destruct (upcoming_birthdays_window Scenario.today
              (Scenario.book_of [Scenario.ann; Scenario.cara]))
    as (bdays & H & M & _).
  { intros name record b G B.
    change (AddressBook.data (Scenario.book_of [Scenario.ann; Scenario.cara]))
      with [("Ann"%string, Scenario.ann); ("Cara"%string, Scenario.cara)] in G.
    cbn [Dict.get] in G.
    destruct (String.eqb "Ann" name).
    - injection G as <-. vm_compute in B. injection B as <-.
      vm_compute. discriminate.
    - destruct (String.eqb "Cara" name); [|discriminate G].
      injection G as <-. vm_compute in B. injection B as <-.
      vm_compute. discriminate. }
  exists bdays. split; [exact H|]. split.
  - apply M. exists Scenario.ann, (Date 2024 1 12). split; [reflexivity|].
    exists (mkField (Spec.midnight 1990 1 12)).
    split; [reflexivity|]. split; [reflexivity|]. vm_compute. discriminate.
  - intros I. apply M in I as (record & c & G & (b & B & C & W)).
    vm_compute in G. injection G as <-.
    vm_compute in B. injection B as <-.
    vm_compute in C. injection C as <-.
    vm_compute in W. apply W. reflexivity.
Defined.

(** The claim C1 as it was stated does not hold of every book: in 2023 Ann
    qualifies, but with Zed, born on a 29 February, in the book the call
    raises and returns no dictionary. *)
Lemma upcoming_birthdays_every_book_counterexample :
  Dict.get "Ann" (AddressBook.data (Scenario.book_of [Scenario.ann; Scenario.zed]))
  = Some Scenario.ann
  /\ Spec.qualifies Scenario.last_year Scenario.ann (Date 2023 1 12)
  /\ AddressBook.get_upcoming_birthdays Scenario.last_year
       (Scenario.book_of [Scenario.ann; Scenario.zed])
     = (Raise (Exn ValueError LibraryText),
        Scenario.book_of [Scenario.ann; Scenario.zed]).
Proof.
  split; [reflexivity|]. split; [|reflexivity].
  exists (mkField (Spec.midnight 1990 1 12)).
  split; [reflexivity|]. split; [reflexivity|]. vm_compute. discriminate.
Qed.

(** The scenarios A to D of the specification. *)
Example scenario_A :
  AddressBook.get_upcoming_birthdays Scenario.today (Scenario.book_of [Scenario.ann])
  = (Ok [("Ann", "12.01.2024")%string], Scenario.book_of [Scenario.ann]).
Proof. reflexivity. Qed.

Example scenario_B :
  AddressBook.get_upcoming_birthdays Scenario.today (Scenario.book_of [Scenario.bob])
  = (Ok [("Bob", "15.01.2024")%string], Scenario.book_of [Scenario.bob]).
Proof. reflexivity. Qed.

Example scenario_C :
  AddressBook.get_upcoming_birthdays Scenario.today
    (Scenario.book_of [Scenario.ann; Scenario.cara])
  = (Ok [("Ann", "12.01.2024")%string],
     Scenario.book_of [Scenario.ann; Scenario.cara]).
Proof. reflexivity. Qed.

Example scenario_D :
  AddressBook.get_upcoming_birthdays Scenario.today AddressBook.empty
  = (Ok [], AddressBook.empty).
Proof. reflexivity. Qed.

(** ** A birthday on 29 February *)

Lemma leap_next (y : Z) : is_leap y = true -> is_leap (y + 1) = false.
Proof.
  unfold is_leap. intros H. apply andb_prop in H as [H _].
  apply Z.eqb_eq in H.
  assert (N : ((y + 1) mod 4 =? 0) = false).
  { apply Z.eqb_neq. Z.div_mod_to_equations. lia. }
  now rewrite N.
Qed.

Lemma no_leap_day (y : Z) : is_leap y = false -> Spec.real_date y 2 29 = false.
Proof.
  intros L. unfold Spec.real_date, days_in_month. rewrite L.
  change ((2 =? 2) && false) with false. cbv iota.
  change (nth (Z.to_nat 2) DAYS_IN_MONTH 0) with 28.
  change (29 <=? 28) with false. apply andb_false_r.
Qed.

Lemma leap_day_no_candidate (today : date) (b : datetime) :
  month (dt_date b) = 2 -> day (dt_date b) = 29 ->
  is_leap (year today) = false
  \/ date_ltb (Date (year today) 2 29) today = true ->
  Spec.candidate today b = None.
Proof.
  intros Hm Hd H. unfold Spec.candidate. rewrite Hm, Hd.
  destruct (is_leap (year today)) eqn:L.
  - destruct H as [H|H]; [discriminate H|]. rewrite H.
    rewrite (no_leap_day (year today + 1) (leap_next _ L)).
    destruct (Spec.real_date (year today) 2 29); reflexivity.
  - now rewrite (no_leap_day _ L).
Qed.

(** C9.  When a record of the book has its birthday on a 29 February, and
    the current year is not a leap year or its 29 February has passed, so
    that the year the day is moved to has no 29 February,
    [get_upcoming_birthdays] raises the [ValueError] of [replace] and
    returns no dictionary. *)
Theorem leap_day_birthday_raises (today : date) (book : AddressBook.t)
    (name : string) (record : Rec.t) (b : Field datetime) :
  Dict.get name (AddressBook.data book) = Some record ->
  Rec.birthday record = Some b ->
  month (dt_date (value b)) = 2 ->
  day (dt_date (value b)) = 29 ->
  is_leap (year today) = false
  \/ date_ltb (Date (year today) 2 29) today = true ->
  AddressBook.get_upcoming_birthdays today book
  = (Raise (Exn ValueError LibraryText), book).
Proof.
  intros G B Hm Hd H.
  assert (E : AddressBook.entry today record = Raise (Exn ValueError LibraryText)).
  { rewrite entry_candidate, B. now rewrite (leap_day_no_candidate today _ Hm Hd H). }
  rewrite get_upcoming_birthdays_loop.
  destruct (AddressBook.upcoming_loop today _ [] book) as [r book'] eqn:L.
  apply upcoming_loop_spec in L as [-> R].
  destruct r as [bdays|e].
  - destruct R as [R _].
    destruct (R name) as (record' & e & G' & E').
    { apply get_keys. eauto. }
    congruence.
  - destruct R as (k & K & [[N _]|(record' & G' & E')]).
    + apply get_keys in K as [v K]. congruence.
    + now rewrite (entry_raises _ _ _ E').
Qed.

Lemma leap_day_birthday_raises_witness :
  AddressBook.get_upcoming_birthdays Scenario.last_year
    (Scenario.book_of [Scenario.zed])
  = (Raise (Exn ValueError LibraryText), Scenario.book_of [Scenario.zed]).
Proof.
  apply (leap_day_birthday_raises Scenario.last_year
           (Scenario.book_of [Scenario.zed]) "Zed" Scenario.zed
           (mkField (Spec.midnight 2000 2 29))).
  - reflexivity.
  - reflexivity.
  - reflexivity.
  - reflexivity.
  - left. reflexivity.
Defined.

End UpcomingBirthdays.

(** ** The decorator and the command loop *)

(** What [input_error] does with an exception of the function it wraps:
    the three classes it names become their message, any other class is
    raised again. *)
Lemma input_error_caught {S A} (func : M S A) (s s' : S) (e : exn) :
  func s = (Raise e, s') ->
  Bot.input_error func s
  = match exn_cls e with
    | KeyError => (Ok (inr Bot.msg_KeyError), s')
    | ValueError => (Ok (inr Bot.msg_ValueError), s')
    | IndexError => (Ok (inr Bot.msg_IndexError), s')
    | _ => (Raise e, s')
    end.
Proof.
  intros H. unfold Bot.input_error. rewrite H.
  destruct e as [[] i]; reflexivity.
Qed.

Lemma input_error_returns {S A} (func : M S A) (s s' : S) (a : A) :
  func s = (Ok a, s') -> Bot.input_error func s = (Ok (inl a), s').
Proof. intros H. unfold Bot.input_error. now rewrite H. Qed.

(** The errors of the book are caught: a phone and a birthday that are
    refused, a contact that is not there, a missing argument. *)
Example caught_errors :
  Bot.stdout (snd (Bot.main 9 (Scenario.session
    ["add Bob 12"; "all"; "phone Al"; "change Al 1"; "show-birthday";
     "add-birthday Bob 29.02.2000"; "birthdays"; "add-birthday Bob 31.02.2024";
     "EXIT"]%string)))
  = ["Welcome to the assistant bot!";
     "Enter a command: "; "Please enter the correct arguments";
     "Enter a command: "; "Bob:" ++ Str.newline;
     "Enter a command: "; "No such contacts";
     "Enter a command: "; "The contact exists";
     "Enter a command: "; "No such contacts";
     "Enter a command: "; "Date of birth added.";
     "Enter a command: "; "No birthdays";
     "Enter a command: "; "Please enter the correct arguments";
     "Enter a command: "; "Good bye!"]%string.
Proof. reflexivity. Qed.

(** Two equal phones, from the terminal. *)
Example duplicate_from_the_terminal :
  option_map Rec.phone_values
    (Dict.get "Bob"
       (AddressBook.data
          (Bot.book (snd (Bot.main 4 (Scenario.session
             ["add Bob 1111111111"; "add Bob 2222222222";
              "change Bob 2222222222"; "0"]%string))))))
  = Some ["2222222222"; "2222222222"]%string.
Proof. reflexivity. Qed.

(** C8.  [show-birthday] for a name the book does not have, and for a
    contact without a birthday, raises [AttributeError], which
    [input_error] does not catch: the exception leaves [main], the loop
    ends, the line typed next is never read and the book is not saved. *)
Theorem show_birthday_ends_the_loop :
  Bot.handle (Bot.show_birthday ["Ghost"%string]) (Scenario.session [])
  = (Raise (Exn AttributeError LibraryText), Scenario.session [])
  /\ Bot.main 2 (Scenario.session ["show-birthday Ghost"; "hello"]%string)
     = (Raise (Exn AttributeError LibraryText),
        Bot.mkWorld AddressBook.empty Scenario.today ["hello"%string]
          ["Welcome to the assistant bot!"; "Enter a command: "]%string None)
  /\ Bot.main 3 (Scenario.session
                   ["add Bob 1234567890"; "show-birthday Bob"; "hello"]%string)
     = (Raise (Exn AttributeError LibraryText),
        Bot.mkWorld
          (AddressBook.mk
             [("Bob"%string,
               Rec.mk (mkField "Bob"%string) [mkField "1234567890"%string] None)])
          Scenario.today ["hello"%string]
          ["Welcome to the assistant bot!"; "Enter a command: ";
           "Contact added."; "Enter a command: "]%string None).
Proof. repeat split. Qed.

(** * Further properties *)

(** ** More on the phones of a record *)

Lemma remove_first_present (phone : string) (l : list (Field string)) :
  Rec.present phone l = true -> exists l', Rec.remove_first phone l = Some l'.
Proof.
  induction l as [|ph rest IH]; simpl; [discriminate|].
  destruct (String.eqb (value ph) phone); intros H.
  - eexists; reflexivity.
  - destruct (IH H) as [l' E]. rewrite E. eexists; reflexivity.
Qed.

Lemma remove_first_absent (phone : string) (l : list (Field string)) :
  Rec.present phone l = false -> Rec.remove_first phone l = None.
Proof.
  induction l as [|ph rest IH]; simpl; auto.
  destruct (String.eqb (value ph) phone); [discriminate|].
  intros H. now rewrite (IH H).
Qed.

Lemma remove_first_last (phone : string) (l : list (Field string)) (p : Field string) :
  Rec.present phone l = false -> value p = phone ->
  Rec.remove_first phone (l ++ [p]) = Some l.
Proof.
  intros A V. induction l as [|ph rest IH]; simpl in *.
  - rewrite V, String.eqb_refl. reflexivity.
  - destruct (String.eqb (value ph) phone); [discriminate|].
    now rewrite (IH A).
Qed.

Lemma edit_first_back (old new : string) (l l' : list (Field string)) :
  Rec.present new l = false ->
  Rec.edit_first old new l = Some l' ->
  Rec.edit_first new old l' = Some l.
Proof.
  revert l'. induction l as [|ph rest IH]; simpl; intros l' A H; [discriminate|].
  destruct (String.eqb_spec (value ph) new) as [N|N]; [discriminate|].
  destruct (String.eqb_spec (value ph) old) as [E|E].
  - injection H as <-. simpl. rewrite String.eqb_refl.
    destruct ph as [v]. simpl in E. now subst v.
  - destruct (Rec.edit_first old new rest) as [r|] eqn:R; [|discriminate].
    injection H as <-. simpl.
    destruct (String.eqb_spec (value ph) new); [contradiction|].
    now rewrite (IH r A eq_refl).
Qed.

Lemma with_phones_same (self : Rec.t) :
  Rec.with_phones self (Rec.phones self) = self.
Proof. now destruct self. Qed.

(** X1.  The phones of a record stay pairwise distinct through [add_phone]
    and [remove_phone], whatever they return, and through [edit_phone] when
    the new value is not the value of a phone of the record. *)
Theorem unique_phones_kept (self self' : Rec.t) (phone new : string)
    (r : outcome unit) :
  Spec.unique_phones self ->
  (Rec.add_phone phone self = (r, self') -> Spec.unique_phones self')
  /\ (Rec.remove_phone phone self = (r, self') -> Spec.unique_phones self')
  /\ (~ In new (Rec.phone_values self) ->
      Rec.edit_phone phone new self = (r, self') -> Spec.unique_phones self').
Proof.
  intros U. split; [|split].
  - apply add_phone_unique, U.
  - apply remove_phone_unique, U.
  - intros F. apply edit_phone_unique_fresh; assumption.
Qed.

Lemma unique_phones_kept_witness :
  Spec.unique_phones
    (Rec.mk (mkField "Bob") [mkField "1111111111"; mkField "2222222222"] None)
  /\ Spec.unique_phones
       (Rec.mk (mkField "Bob") [mkField "2222222222"] None)
  /\ Spec.unique_phones
       (Rec.mk (mkField "Bob") [mkField "3333333333"] None).
Proof.
  assert (U : Spec.unique_phones
                (Rec.mk (mkField "Bob") [mkField "1111111111"] None)).
  { unfold Spec.unique_phones. simpl. constructor; [intros []|constructor]. }
  split; [|split].
  - apply (proj1 (unique_phones_kept _ _ "2222222222" EmptyString (Ok tt) U)).
    reflexivity.
  - assert (V : Spec.unique_phones
                  (Rec.mk (mkField "Bob")
                     [mkField "1111111111"; mkField "2222222222"] None)).
    { unfold Spec.unique_phones. simpl.
      constructor; [intros [H|[]]; discriminate H|].
      constructor; [intros []|constructor]. }
    apply (proj1 (proj2 (unique_phones_kept _ _ "1111111111" EmptyString (Ok tt) V))).
    reflexivity.
  - apply (proj2 (proj2 (unique_phones_kept _ _ "1111111111" "3333333333"
                           (Ok tt) U))).
    + simpl. intros [H|[]]. discriminate H.
    + reflexivity.
Defined.

(** X2.  [remove_phone] of a value a phone of the record has succeeds;
    when the phones are distinct, [find_phone] of that value then raises
    the bare [ValueError], while the other values, the name and the birthday
    are as before.  [remove_phone] of a value no phone has raises that error
    and leaves the record as it is. *)
Theorem remove_phone_find_phone (self : Rec.t) (phone : string) :
  (In phone (Rec.phone_values self) ->
   exists self',
     Rec.remove_phone phone self = (Ok tt, self')
     /\ Rec.name self' = Rec.name self
     /\ Rec.birthday self' = Rec.birthday self
     /\ (forall q, q <> phone ->
           (In q (Rec.phone_values self') <-> In q (Rec.phone_values self)))
     /\ (Spec.unique_phones self ->
         Rec.find_phone phone self' = (Raise (Exn ValueError Bare), self')))
  /\ (~ In phone (Rec.phone_values self) ->
      Rec.remove_phone phone self = (Raise (Exn ValueError Bare), self)).
Proof.
  unfold Rec.phone_values, Spec.unique_phones, Rec.remove_phone, Rec.find_phone.
  split.
  - intros I. apply present_In in I.
    destruct (remove_first_present phone _ I) as [l' E].
    destruct (remove_first_values _ _ _ E) as (b & a & H1 & H2).
    exists (Rec.with_phones self l'). rewrite E.
    split; [reflexivity|]. split; [reflexivity|]. split; [reflexivity|].
    simpl. split.
    + intros q N. rewrite H1, H2. rewrite !in_app_iff. simpl.
      split; [tauto|]. intros [H|[H|H]]; [auto | congruence | auto].
    + unfold Rec.phone_values. rewrite H1. intros U.
      apply NoDup_remove_2 in U. rewrite find_first_present.
      assert (P : Rec.present phone l' = false).
      { apply present_false. now rewrite H2. }
      now rewrite P.
  - intros A. apply present_false in A.
    now rewrite (remove_first_absent phone _ A).
Qed.

Lemma remove_phone_find_phone_witness :
  (exists self',
     Rec.remove_phone "1111111111"
       (Rec.mk (mkField "Bob") [mkField "1111111111"; mkField "2222222222"] None)
     = (Ok tt, self')
     /\ Rec.find_phone "1111111111" self' = (Raise (Exn ValueError Bare), self'))
  /\ Rec.remove_phone "3333333333"
       (Rec.mk (mkField "Bob") [mkField "1111111111"; mkField "2222222222"] None)
     = (Raise (Exn ValueError Bare),
        Rec.mk (mkField "Bob") [mkField "1111111111"; mkField "2222222222"] None).
Proof.
  pose (r := Rec.mk (mkField "Bob")
               [mkField "1111111111"; mkField "2222222222"] None).
  split.
  - destruct (proj1 (remove_phone_find_phone r "1111111111"))
      as (self' & H & _ & _ & _ & F).
    + simpl. auto.
    + exists self'. split; [exact H|]. apply F.
      unfold Spec.unique_phones. simpl.
      constructor; [intros [E|[]]; discriminate E|].
      constructor; [intros []|constructor].
  - apply (proj2 (remove_phone_find_phone r "3333333333")).
    simpl. intros [H|[H|[]]]; discriminate H.
Defined.

(** X3.  After [add_phone] has returned, [find_phone] of the value returns
    it; and when no phone had the value, [remove_phone] of it gives the
    record back as it was before [add_phone]. *)
Theorem add_phone_then (self self' : Rec.t) (phone : string) :
  Rec.add_phone phone self = (Ok tt, self') ->
  Rec.find_phone phone self' = (Ok phone, self')
  /\ (~ In phone (Rec.phone_values self) ->
      Rec.remove_phone phone self' = (Ok tt, self)).
Proof.
  unfold Rec.add_phone, Rec.find_phone, Rec.remove_phone, Rec.phone_values.
  intros H. destruct (Rec.present phone (Rec.phones self)) eqn:P.
  - injection H as <-. rewrite find_first_present, P. split; [reflexivity|].
    intros A. apply present_false in A. congruence.
  - destruct (Phone_outcome phone) as [E|E]; rewrite E in H; [|discriminate H].
    injection H as <-. simpl. rewrite find_first_present.
    assert (Q : Rec.present phone (Rec.phones self ++ [mkField phone]) = true).
    { apply present_In. rewrite map_app. apply in_or_app. right. simpl. auto. }
    rewrite Q. split; [reflexivity|]. intros _.
    rewrite (remove_first_last phone _ (mkField phone) P eq_refl).
    now destruct self.
Qed.

Lemma add_phone_then_witness :
  Rec.find_phone "2222222222"
    (Rec.mk (mkField "Bob") [mkField "1111111111"; mkField "2222222222"] None)
  = (Ok "2222222222"%string,
     Rec.mk (mkField "Bob") [mkField "1111111111"; mkField "2222222222"] None)
  /\ Rec.remove_phone "2222222222"
       (Rec.mk (mkField "Bob") [mkField "1111111111"; mkField "2222222222"] None)
     = (Ok tt, Rec.mk (mkField "Bob") [mkField "1111111111"] None).
Proof.
  destruct (add_phone_then (Rec.mk (mkField "Bob") [mkField "1111111111"] None)
              (Rec.mk (mkField "Bob")
                 [mkField "1111111111"; mkField "2222222222"] None)
              "2222222222" eq_refl) as [F R].
  split; [exact F|]. apply R. simpl. intros [H|[]]. discriminate H.
Defined.

(** X4.  [edit_phone] writes the new value over the first phone that has
    the old one: the phones before and after it, their number and order, the
    name and the birthday are as they were. *)
Theorem edit_phone_in_place (self self' : Rec.t) (old new : string) :
  Rec.edit_phone old new self = (Ok tt, self') ->
  Rec.name self' = Rec.name self
  /\ Rec.birthday self' = Rec.birthday self
  /\ exists before after,
       Rec.phone_values self = before ++ old :: after
       /\ ~ In old before
       /\ Rec.phone_values self' = before ++ new :: after.
Proof.
  unfold Rec.edit_phone, Rec.phone_values. intros H.
  destruct (Rec.edit_first old new (Rec.phones self)) as [l'|] eqn:E;
    [|discriminate H].
  injection H as <-. split; [reflexivity|]. split; [reflexivity|].
  exact (edit_first_values old new _ _ E).
Qed.

Lemma edit_phone_in_place_witness :
  exists before after,
    ["1111111111"; "2222222222"; "3333333333"]%string = before ++ "2222222222"%string :: after
    /\ ~ In "2222222222"%string before
    /\ ["1111111111"; "n/a"; "3333333333"]%string = before ++ "n/a"%string :: after.
Proof.
  apply (edit_phone_in_place
           (Rec.mk (mkField "Bob")
              [mkField "1111111111"; mkField "2222222222"; mkField "3333333333"]
              None)
           (Rec.mk (mkField "Bob")
              [mkField "1111111111"; mkField "n/a"; mkField "3333333333"] None)
           "2222222222" "n/a" eq_refl).
Defined.

(** X5.  When the new value is not the value of a phone of the record,
    [edit_phone] back from the new value to the old one gives the record
    back as it was. *)
Theorem edit_phone_back (self self' : Rec.t) (old new : string) :
  ~ In new (Rec.phone_values self) ->
  Rec.edit_phone old new self = (Ok tt, self') ->
  Rec.edit_phone new old self' = (Ok tt, self).
Proof.
  unfold Rec.edit_phone, Rec.phone_values. intros A H.
  apply present_false in A.
  destruct (Rec.edit_first old new (Rec.phones self)) as [l'|] eqn:E;
    [|discriminate H].
  injection H as <-. simpl. rewrite (edit_first_back old new _ _ A E).
  now destruct self.
Qed.

Lemma edit_phone_back_witness :
  Rec.edit_phone "n/a" "2222222222"
    (Rec.mk (mkField "Bob") [mkField "1111111111"; mkField "n/a"] None)
  = (Ok tt, Rec.mk (mkField "Bob") [mkField "1111111111"; mkField "2222222222"] None).
Proof.
  apply (edit_phone_back
           (Rec.mk (mkField "Bob") [mkField "1111111111"; mkField "2222222222"] None)
           (Rec.mk (mkField "Bob") [mkField "1111111111"; mkField "n/a"] None)
           "2222222222" "n/a").
  - simpl. intros [H|[H|[]]]; discriminate H.
  - reflexivity.
Defined.

(** X6.  On a string of characters below U+0100, [Phone] succeeds exactly
    on ten digits [0] to [9] and on ten such digits followed by one
    newline; it stores the string as it was given; every failure is the
    bare [ValueError]. *)
Theorem Phone_accepts (p : string) :
  (forall v,
     Phone p = Ok v
     <-> v = mkField p
         /\ (Spec.ten_digits p = true
             \/ exists q, p = (q ++ Str.newline)%string
                          /\ Spec.ten_digits q = true))
  /\ (forall e, Phone p = Raise e -> e = Exn ValueError Bare).
Proof.
  split.
  - intros v. split.
    + intros H. split.
      * destruct (Phone_outcome p) as [E|E]; congruence.
      * apply Phone_succeeds_iff. eauto.
    + intros [-> S]. apply Phone_succeeds_iff in S as [v H].
      destruct (Phone_outcome p) as [E|E]; congruence.
  - intros e H. destruct (Phone_outcome p) as [E|E]; congruence.
Qed.

Lemma Phone_accepts_witness :
  Phone "1234567890" = Ok (mkField "1234567890"%string).
Proof.
  apply (proj1 (Phone_accepts "1234567890")). split; [reflexivity|].
  left. reflexivity.
Defined.

(** ** More on dictionaries *)

Lemma get_absent {V} (k : string) (d : Dict.t V) :
  ~ In k (Dict.keys d) <-> Dict.get k d = None.
Proof.
  rewrite get_keys. split.
  - intros H. destruct (Dict.get k d) as [v|]; [|reflexivity].
    exfalso. apply H. eauto.
  - intros H [v E]. congruence.
Qed.

Lemma set_absent {V} (k : string) (v : V) (d : Dict.t V) :
  ~ In k (Dict.keys d) -> Dict.set k v d = d ++ [(k, v)].
Proof.
  induction d as [|[k0 v0] d IH]; simpl; [reflexivity|].
  intros H. destruct (String.eqb_spec k0 k) as [E|E]; [tauto|].
  rewrite IH; [reflexivity | tauto].
Qed.

Lemma keys_set_present {V} (k : string) (v : V) (d : Dict.t V) :
  In k (Dict.keys d) -> Dict.keys (Dict.set k v d) = Dict.keys d.
Proof.
  induction d as [|[k0 v0] d IH]; simpl; [tauto|].
  intros H. destruct (String.eqb_spec k0 k) as [E|E]; simpl; [reflexivity|].
  rewrite IH; [reflexivity|]. destruct H; [contradiction | assumption].
Qed.

Lemma keys_set_unique {V} (k : string) (v : V) (d : Dict.t V) :
  NoDup (Dict.keys d) -> NoDup (Dict.keys (Dict.set k v d)).
Proof.
  intros U. destruct (in_dec string_dec k (Dict.keys d)) as [I|I].
  - now rewrite keys_set_present.
  - rewrite set_absent by assumption. unfold Dict.keys in *.
    rewrite map_app. simpl.
    apply NoDup_rev in U. rewrite <- (rev_involutive (_ ++ _)).
    apply NoDup_rev. rewrite rev_app_distr. simpl.
    constructor; [rewrite <- in_rev; exact I | exact U].
Qed.

Lemma del_absent {V} (k : string) (d : Dict.t V) :
  ~ In k (Dict.keys d) -> Dict.del k d = None.
Proof.
  induction d as [|[k0 v0] d IH]; simpl; [reflexivity|].
  intros H. destruct (String.eqb_spec k0 k) as [E|E]; [tauto|].
  rewrite IH; [reflexivity | tauto].
Qed.

(** [del] takes the first pair of the key out. *)
Lemma del_present {V} (k : string) (d : Dict.t V) :
  In k (Dict.keys d) ->
  exists before v after,
    d = before ++ (k, v) :: after
    /\ ~ In k (Dict.keys before)
    /\ Dict.del k d = Some (before ++ after).
Proof.
  induction d as [|[k0 v0] d IH]; simpl; [tauto|].
  intros H. destruct (String.eqb_spec k0 k) as [E|E].
  - subst k0. exists [], v0, d. simpl. auto.
  - destruct IH as (b & v & a & -> & N & D); [tauto|].
    exists ((k0, v0) :: b), v, a. simpl. rewrite D.
    split; [reflexivity|]. split; [tauto | reflexivity].
Qed.

Lemma get_app {V} (k : string) (a b : Dict.t V) :
  Dict.get k (a ++ b)
  = match Dict.get k a with Some v => Some v | None => Dict.get k b end.
Proof.
  induction a as [|[k0 v0] a IH]; simpl; [reflexivity|].
  destruct (String.eqb k0 k); [reflexivity | exact IH].
Qed.

Lemma get_unique {V} (k : string) (v : V) (d : Dict.t V) :
  NoDup (Dict.keys d) -> In (k, v) d -> Dict.get k d = Some v.
Proof.
  induction d as [|[k0 v0] d IH]; simpl; [tauto|].
  intros U [H|H].
  - injection H as -> ->. now rewrite String.eqb_refl.
  - inversion U as [|? ? N U']; subst.
    destruct (String.eqb_spec k0 k) as [E|E]; [|auto].
    subst k0. exfalso. apply N. apply (in_map fst) in H. exact H.
Qed.

(** ** The records of the book *)

(** X7.  After [add_record], [find] of the name of the record returns the
    record and [find] of any other name returns what it returned before; a
    name the book had keeps its place, a new name goes last, and the names
    stay distinct. *)
Theorem add_record_find (book : AddressBook.t) (record : Rec.t) :
  exists book',
    AddressBook.add_record record book = (Ok tt, book')
    /\ AddressBook.find (value (Rec.name record)) book' = (Ok (Some record), book')
    /\ (forall other, other <> value (Rec.name record) ->
          fst (AddressBook.find other book') = fst (AddressBook.find other book))
    /\ (In (value (Rec.name record)) (Dict.keys (AddressBook.data book)) ->
        Dict.keys (AddressBook.data book') = Dict.keys (AddressBook.data book))
    /\ (~ In (value (Rec.name record)) (Dict.keys (AddressBook.data book)) ->
        AddressBook.data book'
        = AddressBook.data book ++ [(value (Rec.name record), record)])
    /\ (NoDup (Dict.keys (AddressBook.data book)) ->
        NoDup (Dict.keys (AddressBook.data book'))).
Proof.
  eexists. split; [reflexivity|]. unfold AddressBook.find. simpl.
  split; [|split; [|split; [|split]]].
  - now rewrite get_set, String.eqb_refl.
  - intros other N. rewrite get_set.
    destruct (String.eqb_spec (value (Rec.name record)) other); congruence.
  - apply keys_set_present.
  - apply set_absent.
  - apply keys_set_unique.
Qed.

Lemma add_record_find_witness :
  Dict.keys (AddressBook.data
               (snd (AddressBook.add_record
                       (Rec.mk (mkField "Ann") [mkField "1111111111"] None)
                       (Scenario.book_of [Scenario.ann; Scenario.bob]))))
  = ["Ann"; "Bob"]%string
  /\ AddressBook.data
       (snd (AddressBook.add_record Scenario.cara
               (Scenario.book_of [Scenario.ann; Scenario.bob])))
     = AddressBook.data (Scenario.book_of [Scenario.ann; Scenario.bob])
       ++ [("Cara"%string, Scenario.cara)].
Proof.
  split.
  - destruct (add_record_find (Scenario.book_of [Scenario.ann; Scenario.bob])
                (Rec.mk (mkField "Ann") [mkField "1111111111"] None))
      as (book' & H & _ & _ & K & _).
    injection H as <-. apply K. simpl. auto.
  - destruct (add_record_find (Scenario.book_of [Scenario.ann; Scenario.bob])
                Scenario.cara) as (book' & H & _ & _ & _ & K & _).
    injection H as <-. apply K. simpl.
    intros [E|[E|[]]]; discriminate E.
Defined.

(** X8.  [delete] of a name the book does not have raises [KeyError] and
    leaves the book as it is; of a name it has, it succeeds, after which
    [find] of any other name returns what it returned before and, the names
    being distinct, [find] of the name returns nothing and the names are
    still distinct. *)
Theorem delete_find (book : AddressBook.t) (name : string) :
  (~ In name (Dict.keys (AddressBook.data book)) ->
   AddressBook.delete name book = (Raise (Exn KeyError LibraryText), book))
  /\ (In name (Dict.keys (AddressBook.data book)) ->
      exists book',
        AddressBook.delete name book = (Ok tt, book')
        /\ (forall other, other <> name ->
              fst (AddressBook.find other book') = fst (AddressBook.find other book))
        /\ (NoDup (Dict.keys (AddressBook.data book)) ->
            AddressBook.find name book' = (Ok None, book')
            /\ NoDup (Dict.keys (AddressBook.data book')))).
Proof.
  unfold AddressBook.delete, AddressBook.find. split.
  - intros A. now rewrite (del_absent name _ A).
  - intros I. destruct (del_present name _ I) as (b & v & a & E & N & D).
    rewrite D. eexists. split; [reflexivity|]. simpl. split.
    + intros other O. rewrite E, !get_app. simpl.
      destruct (String.eqb_spec name other); [congruence | reflexivity].
    + rewrite E. unfold Dict.keys. rewrite !map_app. simpl. intros U.
      pose proof (NoDup_remove_1 _ _ _ U) as U1.
      pose proof (NoDup_remove_2 _ _ _ U) as U2.
      split; [|exact U1].
      assert (G : Dict.get name (b ++ a) = None).
      { apply get_absent. unfold Dict.keys. now rewrite map_app. }
      now rewrite G.
Qed.

Lemma delete_find_witness :
  AddressBook.delete "Cara" (Scenario.book_of [Scenario.ann; Scenario.bob])
  = (Raise (Exn KeyError LibraryText), Scenario.book_of [Scenario.ann; Scenario.bob])
  /\ exists book',
       AddressBook.delete "Ann" (Scenario.book_of [Scenario.ann; Scenario.bob])
       = (Ok tt, book')
       /\ AddressBook.find "Ann" book' = (Ok None, book').
Proof.
  split.
  - apply (proj1 (delete_find _ "Cara")). simpl.
    intros [E|[E|[]]]; discriminate E.
  - destruct (proj2 (delete_find (Scenario.book_of [Scenario.ann; Scenario.bob])
                       "Ann")) as (book' & H & _ & K).
    + simpl. auto.
    + exists book'. split; [exact H|]. apply K. simpl.
      constructor; [intros [E|[]]; discriminate E|].
      constructor; [intros []|constructor].
Defined.

(** X9.  [delete] of the name of a record just added by [add_record] to a
    book that did not have the name gives the book back as it was. *)
Theorem add_record_delete (book : AddressBook.t) (record : Rec.t) :
  ~ In (value (Rec.name record)) (Dict.keys (AddressBook.data book)) ->
  AddressBook.delete (value (Rec.name record))
    (snd (AddressBook.add_record record book))
  = (Ok tt, book).
Proof.
  intros A. unfold AddressBook.delete, AddressBook.add_record. simpl.
  rewrite (set_absent _ record _ A).
  assert (I : In (value (Rec.name record))
                (Dict.keys (AddressBook.data book
                            ++ [(value (Rec.name record), record)]))).
  { unfold Dict.keys. rewrite map_app. apply in_or_app. right. simpl. auto. }
  destruct (del_present _ _ I) as (b & v & a & E & N & D). rewrite D.
  assert (S : b = AddressBook.data book /\ a = []).
  { clear D I. revert b E N A. generalize (AddressBook.data book) as d.
    induction d as [|[k0 v0] d IH]; simpl; intros b E N A.
    - destruct b as [|p b]; [injection E as _ <-; auto|].
      simpl in E. injection E as <- E. destruct b; discriminate E.
    - destruct b as [|p b]; simpl in E.
      + injection E as E1 _ _. subst k0. tauto.
      + injection E as <- E. simpl in N.
        destruct (IH b E) as [-> ->]; [tauto | tauto | auto]. }
  destruct S as [-> ->]. rewrite app_nil_r. now destruct book.
Qed.

Lemma add_record_delete_witness :
  AddressBook.delete "Cara"
    (snd (AddressBook.add_record Scenario.cara
            (Scenario.book_of [Scenario.ann; Scenario.bob])))
  = (Ok tt, Scenario.book_of [Scenario.ann; Scenario.bob]).
Proof.
  apply (add_record_delete (Scenario.book_of [Scenario.ann; Scenario.bob])
           Scenario.cara).
  simpl. intros [E|[E|[]]]; discriminate E.
Defined.

(** ** More on the upcoming birthdays *)

Section MoreUpcoming.

Import Datetime.

Lemma entries_keys (today : date) (d : Dict.t Rec.t) (k : string) :
  In k (Dict.keys (Listing.entries today d)) -> In k (Dict.keys d).
Proof.
  induction d as [|[k0 v0] d IH]; simpl; [tauto|].
  unfold Dict.keys in *. rewrite map_app, in_app_iff. intros [H|H]; [|auto].
  destruct (AddressBook.entry today v0) as [[text|]|e]; simpl in H; tauto.
Qed.

Lemma entries_unique (today : date) (d : Dict.t Rec.t) :
  NoDup (Dict.keys d) -> NoDup (Dict.keys (Listing.entries today d)).
Proof.
  induction d as [|[k0 v0] d IH]; simpl; intros U; [constructor|].
  inversion U as [|? ? N U']; subst.
  unfold Dict.keys in *. rewrite map_app.
  destruct (AddressBook.entry today v0) as [[text|]|e]; simpl; auto.
  constructor; [|auto]. intros I. apply N. exact (entries_keys today d k0 I).
Qed.

(** The loop over the names of distinct pairs the book holds appends
    their entries to the dictionary. *)
Lemma upcoming_loop_listing (today : date) (book : AddressBook.t)
    (d : Dict.t Rec.t) :
  forall (bdays0 bdays : Dict.t string) (book' : AddressBook.t),
    (forall k v, In (k, v) d -> Dict.get k (AddressBook.data book) = Some v) ->
    NoDup (Dict.keys d) ->
    (forall k, In k (Dict.keys d) -> ~ In k (Dict.keys bdays0)) ->
    AddressBook.upcoming_loop today (Dict.keys d) bdays0 book = (Ok bdays, book') ->
    bdays = bdays0 ++ Listing.entries today d.
Proof.
  induction d as [|[k v] d IH]; intros bdays0 bdays book' G U F H.
  - injection H as <- _. simpl. now rewrite app_nil_r.
  - simpl in H. unfold bind, AddressBook.find, lift in H.
    rewrite (G k v (or_introl eq_refl)) in H.
    inversion U as [|? ? N U']; subst. simpl.
    destruct (AddressBook.entry today v) as [[text|]|e]; [| |discriminate H].
    + rewrite (set_absent k text bdays0) in H by (apply F; simpl; auto).
      assert (F' : forall k', In k' (Dict.keys d) ->
                         ~ In k' (Dict.keys (bdays0 ++ [(k, text)]))).
      { intros k' I. unfold Dict.keys. rewrite map_app, in_app_iff. simpl.
        intros [J|[J|[]]].
        - exact (F k' (or_intror I) J).
        - subst k'. exact (N I). }
      rewrite (IH _ _ _ (fun k' v' I => G k' v' (or_intror I)) U' F' H).
      now rewrite <- app_assoc.
    + apply (IH _ _ _ (fun k' v' I => G k' v' (or_intror I)) U'
                (fun k' I => F k' (or_intror I)) H).
Qed.

(** X10.  When the names of the book are distinct, the dictionary
    [get_upcoming_birthdays] returns lists, in the order of the book, the
    names whose entry is a text, each once, with that text. *)
Theorem upcoming_birthdays_listing (today : date) (book book' : AddressBook.t)
    (bdays : Dict.t string) :
  NoDup (Dict.keys (AddressBook.data book)) ->
  AddressBook.get_upcoming_birthdays today book = (Ok bdays, book') ->
  bdays = Listing.entries today (AddressBook.data book)
  /\ NoDup (Dict.keys bdays).
Proof.
  intros U H. rewrite get_upcoming_birthdays_loop in H.
  assert (E : bdays = [] ++ Listing.entries today (AddressBook.data book)).
  { apply (upcoming_loop_listing today book (AddressBook.data book) []
             bdays book'); auto.
    intros k v I. apply get_unique; assumption. }
  simpl in E. subst bdays. split; [reflexivity|]. apply entries_unique, U.
Qed.

Lemma upcoming_birthdays_listing_witness :
  [("Ann", "12.01.2024"); ("Bob", "15.01.2024")]%string
  = Listing.entries Scenario.today
      (AddressBook.data
         (Scenario.book_of [Scenario.cara; Scenario.ann; Scenario.bob]))
  /\ NoDup (Dict.keys [("Ann", "12.01.2024"); ("Bob", "15.01.2024")]%string).
Proof.
  apply (upcoming_birthdays_listing Scenario.today
           (Scenario.book_of [Scenario.cara; Scenario.ann; Scenario.bob])
           (Scenario.book_of [Scenario.cara; Scenario.ann; Scenario.bob])).
  - simpl. constructor; [intros [E|[E|[]]]; discriminate E|].
    constructor; [intros [E|[]]; discriminate E|].
    constructor; [intros []|constructor].
  - reflexivity.
Defined.

Lemma entry_no_candidate (today : date) (record : Rec.t) (e : exn) :
  AddressBook.entry today record = Raise e ->
  e = Exn ValueError LibraryText
  /\ exists b, Rec.birthday record = Some b
               /\ Spec.candidate today (value b) = None.
Proof.
  rewrite entry_candidate.
  destruct (Rec.birthday record) as [b|]; [|discriminate].
  destruct (Spec.candidate today (value b)) as [c|] eqn:C.
  - destruct (7 <? days_between c today); discriminate.
  - intros H. injection H as <-. eauto.
Qed.

(** X11.  [get_upcoming_birthdays] raises exactly when a record of the
    book has a birthday without candidate date; what it raises is then the
    [ValueError] of [replace], never another exception, and the book is
    left as it was. *)
Theorem get_upcoming_birthdays_raises (today : date) (book : AddressBook.t) :
  (forall e book',
     AddressBook.get_upcoming_birthdays today book = (Raise e, book') ->
     e = Exn ValueError LibraryText /\ book' = book
     /\ exists name record b,
          Dict.get name (AddressBook.data book) = Some record
          /\ Rec.birthday record = Some b
          /\ Spec.candidate today (value b) = None)
  /\ ((exists name record b,
         Dict.get name (AddressBook.data book) = Some record
         /\ Rec.birthday record = Some b
         /\ Spec.candidate today (value b) = None) ->
      AddressBook.get_upcoming_birthdays today book
      = (Raise (Exn ValueError LibraryText), book)).
Proof.
  rewrite get_upcoming_birthdays_loop.
  assert (R : forall e book',
             AddressBook.upcoming_loop today
               (Dict.keys (AddressBook.data book)) [] book = (Raise e, book') ->
             e = Exn ValueError LibraryText /\ book' = book
             /\ exists name record b,
                  Dict.get name (AddressBook.data book) = Some record
                  /\ Rec.birthday record = Some b
                  /\ Spec.candidate today (value b) = None).
  { intros e book' H. apply upcoming_loop_spec in H as [-> R].
    destruct R as (k & K & [[N _]|(record & G & E)]).
    - apply get_keys in K as [v K]. congruence.
    - apply entry_no_candidate in E as [-> (b & B & C)].
      split; [reflexivity|]. split; [reflexivity|].
      exists k, record, b. auto. }
  split; [exact R|].
  intros (name & record & b & G & B & C).
  destruct (AddressBook.upcoming_loop today _ [] book) as [r book'] eqn:L.
  destruct r as [bdays|e].
  - apply upcoming_loop_spec in L as [_ [L _]].
    destruct (L name) as (record' & x & G' & E').
    { apply get_keys. eauto. }
    rewrite entry_candidate in E'.
    assert (record' = record) by congruence. subst record'.
    rewrite B, C in E'. discriminate E'.
  - destruct (R e book' eq_refl) as (-> & -> & _). reflexivity.
Qed.

(** The first day of the year, on the last day [date] can hold: the
    birthday has passed and the year after is out of range. *)
Lemma get_upcoming_birthdays_raises_witness :
  AddressBook.get_upcoming_birthdays (Date 9999 12 31)
    (Scenario.book_of [Scenario.contact "Eve" "01.01.2000"])
  = (Raise (Exn ValueError LibraryText),
     Scenario.book_of [Scenario.contact "Eve" "01.01.2000"]).
Proof.
  apply (proj2 (get_upcoming_birthdays_raises (Date 9999 12 31)
                  (Scenario.book_of [Scenario.contact "Eve" "01.01.2000"]))).
  exists "Eve"%string, (Scenario.contact "Eve" "01.01.2000"),
    (mkField (Spec.midnight 2000 1 1)).
  split; [reflexivity|]. split; reflexivity.
Defined.

Lemma congratulation_working_day (c : date) :
  Spec.real_date (year c) (month c) (day c) = true ->
  0 <= weekday (Spec.congratulation c) < 5
  /\ 0 <= days_between (Spec.congratulation c) c <= 2.
Proof.
  intros R. rewrite (congratulation_shift c R).
  assert (B : 1 <= toordinal c).
  { destruct c as [y m d]. apply (toordinal_bounds y m d R). }
  pose proof (weekday_range c) as W. unfold Spec.shift.
  destruct (Z.eqb_spec (weekday c) 5) as [E5|E5];
    [|destruct (Z.eqb_spec (weekday c) 6) as [E6|E6]].
  - destruct (congratulation_monday c B (or_introl E5)) as [_ M].
    rewrite M. lia.
  - destruct (congratulation_monday c B (or_intror E6)) as [_ M].
    rewrite M. lia.
  - rewrite congratulation_weekday by lia. lia.
Qed.

(** A text of the dictionary returned is the congratulation date of a
    record that qualifies. *)
Lemma returned_text (today : date) (book book' : AddressBook.t)
    (bdays : Dict.t string) (name text : string) :
  AddressBook.get_upcoming_birthdays today book = (Ok bdays, book') ->
  Dict.get name bdays = Some text ->
  exists record c,
    Dict.get name (AddressBook.data book) = Some record
    /\ Spec.qualifies today record c
    /\ text = strftime_dmY (Spec.congratulation c).
Proof.
  intros H G. rewrite get_upcoming_birthdays_loop in H.
  apply upcoming_loop_spec in H as [_ [_ H]]. rewrite H in G.
  destruct (in_dec string_dec name _); [|discriminate G].
  destruct (Spec.entered today book name) as [t|] eqn:E; [|discriminate G].
  injection G as ->. apply entered_qualifies. exact E.
Qed.

Lemma days_add (a b c : date) :
  0 <= days_between b c -> days_between b c <= 7 ->
  0 <= days_between a b <= 2 ->
  0 <= days_between a c <= 9.
Proof.
  unfold days_between.
  generalize (toordinal a), (toordinal b), (toordinal c). intros. lia.
Qed.

(** X12.  When today is a real date of the year 1000 or later, every text
    of the dictionary [get_upcoming_birthdays] returns writes, as
    [DD.MM.YYYY], a real date that is a day from Monday to Friday, today or
    at most nine days later. *)
Theorem congratulation_on_working_day (today : date)
    (book book' : AddressBook.t) (bdays : Dict.t string) (name text : string) :
  Spec.real_date (year today) (month today) (day today) = true ->
  1000 <= year today ->
  AddressBook.get_upcoming_birthdays today book = (Ok bdays, book') ->
  Dict.get name bdays = Some text ->
  exists y m d,
    text = (Str.pad2 d ++ "." ++ Str.pad2 m ++ "." ++ Str.pad4 y)%string
    /\ Spec.DD_MM_YYYY text = true
    /\ Spec.real_date y m d = true
    /\ 0 <= weekday (Date y m d) < 5
    /\ 0 <= days_between (Date y m d) today <= 9.
Proof.
  intros T Y H G.
  destruct (returned_text today book book' bdays name text H G)
    as (record & c & _ & (b & _ & C & W) & ->).
  pose proof (candidate_real today (value b) c C) as R.
  pose proof (candidate_year today (value b) c C) as Yc.
  pose proof (candidate_not_before today (value b) c T C) as L.
  destruct (congratulation_working_day c R) as [D S].
  destruct (congratulation_text c R) as (y & m & d & E & R' & F); [lia|].
  exists y, m, d. rewrite F. split; [reflexivity|].
  split; [apply pad_DD_MM_YYYY|]. split; [exact R'|].
  rewrite <- E. split; [exact D|].
  exact (days_add _ _ _ L W S).
Qed.

Lemma congratulation_on_working_day_witness :
  AddressBook.get_upcoming_birthdays Scenario.today
    (Scenario.book_of [Scenario.bob])
  = (Ok [("Bob", "15.01.2024")%string], Scenario.book_of [Scenario.bob])
  /\ exists y m d,
       "15.01.2024"%string
       = (Str.pad2 d ++ "." ++ Str.pad2 m ++ "." ++ Str.pad4 y)%string
       /\ Spec.DD_MM_YYYY "15.01.2024" = true
       /\ Spec.real_date y m d = true
       /\ 0 <= weekday (Date y m d) < 5
       /\ 0 <= days_between (Date y m d) Scenario.today <= 9.
Proof.
  split; [reflexivity|].
  apply (congratulation_on_working_day Scenario.today
           (Scenario.book_of [Scenario.bob]) (Scenario.book_of [Scenario.bob])
           [("Bob", "15.01.2024")%string] "Bob").
  - reflexivity.
  - simpl. lia.
  - reflexivity.
  - reflexivity.
Defined.

End MoreUpcoming.

(** ** More on the commands *)

Section Commands.

Import Datetime.

Lemma with_book_same (w : Bot.World) : Bot.with_book w (Bot.book w) = w.
Proof. now destruct w. Qed.

Lemma on_book_find (name : string) (w : Bot.World) :
  Bot.on_book (AddressBook.find name) w
  = (Ok (Dict.get name (AddressBook.data (Bot.book w))), w).
Proof.
  unfold Bot.on_book, AddressBook.find. now rewrite with_book_same.
Qed.

(** What [print] shows of a decorated handler, from what the handler
    did. *)
Lemma handle_run {S} (h : M S string) (s : S) :
  Bot.handle h s
  = match h s with
    | (Ok text, s') => (Ok text, s')
    | (Raise (Exn KeyError i), s') => (Ok Bot.msg_KeyError, s')
    | (Raise (Exn ValueError i), s') => (Ok Bot.msg_ValueError, s')
    | (Raise (Exn IndexError i), s') => (Ok Bot.msg_IndexError, s')
    | (Raise e, s') => (Raise e, s')
    end.
Proof.
  unfold Bot.handle, bind, Bot.input_error, ret.
  destruct (h s) as [[text|[[] i]] s']; reflexivity.
Qed.

Lemma set_last {V} (k : string) (v v' : V) (d : Dict.t V) :
  ~ In k (Dict.keys d) -> Dict.set k v' (d ++ [(k, v)]) = d ++ [(k, v')].
Proof.
  induction d as [|[k0 v0] d IH]; simpl; intros H.
  - now rewrite String.eqb_refl.
  - destruct (String.eqb_spec k0 k) as [E|E]; [tauto|].
    rewrite IH; [reflexivity | tauto].
Qed.

Lemma init_named (name : string) :
  name <> EmptyString -> Rec.init name = Ok (Rec.mk (mkField name) [] None).
Proof. destruct name; [congruence | reflexivity]. Qed.

(** X13.  [add] of a name the book does not have puts a record of that
    name last in the book before the phone is looked at: with a phone
    [Phone] takes, the record holds it and the answer is "Contact added.";
    with a phone [Phone] refuses, the record stays in the book without a
    phone and the answer is the message of the [ValueError]. *)
Theorem add_contact_new (w : Bot.World) (name phone : string)
    (rest : list string) :
  name <> EmptyString -> phone <> EmptyString ->
  Dict.get name (AddressBook.data (Bot.book w)) = None ->
  Bot.handle (Bot.add_contact (name :: phone :: rest)) w
  = match Phone phone with
    | Ok p =>
        (Ok "Contact added."%string,
         Bot.with_book w
           (AddressBook.mk (AddressBook.data (Bot.book w)
                            ++ [(name, Rec.mk (mkField name) [p] None)])))
    | Raise _ =>
        (Ok Bot.msg_ValueError,
         Bot.with_book w
           (AddressBook.mk (AddressBook.data (Bot.book w)
                            ++ [(name, Rec.mk (mkField name) [] None)])))
    end.
Proof.
  intros Hn Hp G. rewrite handle_run. unfold Bot.add_contact.
  unfold bind at 1. rewrite on_book_find, G.
  unfold bind at 1. unfold bind at 1. unfold lift.
  rewrite (init_named name Hn).
  unfold bind, Bot.on_book, AddressBook.add_record, ret. simpl value.
  apply get_absent in G. rewrite (set_absent name _ _ G).
  destruct phone as [|c phone]; [congruence|].
  unfold Bot.on_record. cbn [Bot.book Bot.with_book AddressBook.data].
  rewrite get_app. rewrite (proj1 (get_absent _ _) G).
  cbn [Dict.get]. rewrite String.eqb_refl.
  unfold Rec.add_phone. cbn [Rec.phones Rec.present].
  destruct (Phone_outcome (String c phone)) as [E|E]; rewrite E.
  - cbn. rewrite (set_last name _ _ _ G). reflexivity.
  - cbn. rewrite (set_last name _ _ _ G). reflexivity.
Qed.

(** X14.  [add] of a name the book has is [add_phone] on its record: the
    answer is "Contact updated." when [add_phone] returns, also when the
    record had the phone already, and the message of the [ValueError]
    when [Phone] refuses the phone. *)
Theorem add_contact_existing (w : Bot.World) (name phone : string)
    (rest : list string) (record : Rec.t) :
  phone <> EmptyString ->
  Dict.get name (AddressBook.data (Bot.book w)) = Some record ->
  Bot.handle (Bot.add_contact (name :: phone :: rest)) w
  = (Ok (match fst (Rec.add_phone phone record) with
         | Ok _ => "Contact updated."%string
         | Raise _ => Bot.msg_ValueError
         end),
     Bot.with_book w
       (AddressBook.mk
          (Dict.set name (snd (Rec.add_phone phone record))
             (AddressBook.data (Bot.book w))))).
Proof.
  intros Hp G. rewrite handle_run. unfold Bot.add_contact.
  unfold bind at 1. rewrite on_book_find, G.
  unfold bind at 1. unfold bind at 1. unfold ret at 1.
  destruct phone as [|c phone]; [congruence|].
  unfold bind, Bot.on_book, Bot.on_record, ret. rewrite G.
  unfold Rec.add_phone.
  destruct (Rec.present (String c phone) (Rec.phones record)); [reflexivity|].
  destruct (Phone_outcome (String c phone)) as [E|E]; rewrite E; reflexivity.
Qed.

Lemma add_contact_existing_witness :
  Bot.handle (Bot.add_contact ["Bob"; "2222222222"]%string)
    (Bot.mkWorld
       (AddressBook.mk
          [("Bob"%string, Rec.mk (mkField "Bob") [mkField "1111111111"] None)])
       Scenario.today [] [] None)
  = (Ok "Contact updated."%string,
     Bot.mkWorld
       (AddressBook.mk
          [("Bob"%string,
            Rec.mk (mkField "Bob")
              [mkField "1111111111"; mkField "2222222222"] None)])
       Scenario.today [] [] None).
Proof.
  apply (add_contact_existing
           (Bot.mkWorld
              (AddressBook.mk
                 [("Bob"%string,
                   Rec.mk (mkField "Bob") [mkField "1111111111"] None)])
              Scenario.today [] [] None)
           "Bob" "2222222222" []
           (Rec.mk (mkField "Bob") [mkField "1111111111"] None)).
  - discriminate.
  - reflexivity.
Defined.

Lemma add_contact_new_witness :
  Bot.handle (Bot.add_contact ["Bob"; "12"]%string) (Scenario.session [])
  = (Ok Bot.msg_ValueError,
     Bot.mkWorld
       (AddressBook.mk [("Bob"%string, Rec.mk (mkField "Bob") [] None)])
       Scenario.today [] [] None).
Proof.
  apply (add_contact_new (Scenario.session []) "Bob" "12" []).
  - discriminate.
  - discriminate.
  - reflexivity.
Defined.

Lemma print_run (line : string) (w : Bot.World) :
  Bot.print line w = (Ok tt, Shown.after w (Bot.stdin w) [line]).
Proof. reflexivity. Qed.

Lemma after_after (w : Bot.World) (l1 l2 : list string) (t1 t2 : list string) :
  Shown.after (Shown.after w l1 t1) l2 t2 = Shown.after w l2 (t1 ++ t2).
Proof. unfold Shown.after. simpl. now rewrite app_assoc. Qed.

Lemma print_phones_run (phones : list (Field string)) :
  forall (i : nat) (w : Bot.World),
    Bot.print_phones i phones w
    = (Ok tt, Shown.after w (Bot.stdin w) (Shown.numbered i phones)).
Proof.
  induction phones as [|ph rest IH]; intros i w; simpl.
  - unfold ret, Shown.after. rewrite app_nil_r. now destruct w.
  - unfold bind. rewrite print_run, IH, after_after. reflexivity.
Qed.

Lemma index_In {A} (l : list A) (key : Z) (x : A) :
  Bot.index l key = Ok x -> In x l.
Proof.
  unfold Bot.index.
  destruct ((0 <=? _) && _); [|discriminate].
  destruct (nth_error l _) as [y|] eqn:E; [|discriminate].
  intros H. injection H as <-. exact (nth_error_In _ _ E).
Qed.

Lemma index_raises {A} (l : list A) (key : Z) (e : exn) :
  Bot.index l key = Raise e -> e = Exn IndexError LibraryText.
Proof.
  unfold Bot.index.
  destruct ((0 <=? _) && _); [|congruence].
  destruct (nth_error l _); congruence.
Qed.

Lemma edit_phone_of_member (record : Rec.t) (ph : Field string) (new : string) :
  In ph (Rec.phones record) ->
  fst (Rec.edit_phone (value ph) new record) = Ok tt.
Proof.
  intros I. unfold Rec.edit_phone.
  destruct (edit_first_present (value ph) new (Rec.phones record)) as [l E].
  { apply present_In. now apply in_map. }
  now rewrite E.
Qed.

(** X15.  [change] with other than two arguments answers the message of
    [ValueError]; for a name the book does not have, the message of
    [KeyError]; for a contact without phones, "No phones to edit"; nothing
    is changed in these cases.  For a contact with one phone it writes the
    new text over it, whatever the text, and asks nothing. *)
Theorem change_contact_cases (w : Bot.World) (args : list string) :
  (List.length args <> 2%nat ->
   Bot.handle (Bot.change_contact args) w = (Ok Bot.msg_ValueError, w))
  /\ (forall name new,
        args = [name; new] ->
        Dict.get name (AddressBook.data (Bot.book w)) = None ->
        Bot.handle (Bot.change_contact args) w = (Ok Bot.msg_KeyError, w))
  /\ (forall name new record,
        args = [name; new] ->
        Dict.get name (AddressBook.data (Bot.book w)) = Some record ->
        Rec.phones record = [] ->
        Bot.handle (Bot.change_contact args) w
        = (Ok "No phones to edit"%string, w))
  /\ (forall name new record ph,
        args = [name; new] ->
        Dict.get name (AddressBook.data (Bot.book w)) = Some record ->
        Rec.phones record = [ph] ->
        Bot.handle (Bot.change_contact args) w
        = (Ok (Shown.replaced (value ph) new),
           Bot.with_book w
             (AddressBook.mk
                (Dict.set name (Rec.with_phones record [mkField new])
                   (AddressBook.data (Bot.book w)))))).
Proof.
  rewrite handle_run. split; [|split; [|split]].
  - intros L. destruct args as [|a [|b [|c args]]]; try reflexivity.
    simpl in L. congruence.
  - intros name new -> G. unfold Bot.change_contact.
    unfold bind at 1. now rewrite on_book_find, G.
  - intros name new record -> G P. unfold Bot.change_contact.
    unfold bind at 1. rewrite on_book_find, G, P. reflexivity.
  - intros name new record ph -> G P. unfold Bot.change_contact.
    unfold bind at 1. rewrite on_book_find, G, P.
    unfold bind, ret, Bot.on_book, Bot.on_record. rewrite G.
    unfold Rec.edit_phone. rewrite P. cbn [Rec.edit_first].
    rewrite String.eqb_refl. reflexivity.
Qed.

Lemma change_contact_cases_witness :
  Bot.handle (Bot.change_contact ["Bob"]%string) (Scenario.session [])
  = (Ok Bot.msg_ValueError, Scenario.session [])
  /\ Bot.handle (Bot.change_contact ["Bob"; "n/a"]%string) (Scenario.session [])
     = (Ok Bot.msg_KeyError, Scenario.session [])
  /\ Bot.handle (Bot.change_contact ["Bob"; "n/a"]%string)
       (Bot.mkWorld
          (AddressBook.mk
             [("Bob"%string, Rec.mk (mkField "Bob") [mkField "1111111111"] None)])
          Scenario.today [] [] None)
     = (Ok (Shown.replaced "1111111111" "n/a"),
        Bot.mkWorld
          (AddressBook.mk
             [("Bob"%string, Rec.mk (mkField "Bob") [mkField "n/a"] None)])
          Scenario.today [] [] None).
Proof.
  split; [|split].
  - apply (proj1 (change_contact_cases (Scenario.session []) ["Bob"]%string)).
    simpl. discriminate.
  - apply (proj1 (proj2 (change_contact_cases (Scenario.session [])
                           ["Bob"; "n/a"]%string)) "Bob" "n/a")%string.
    + reflexivity.
    + reflexivity.
  - apply (proj2 (proj2 (proj2
             (change_contact_cases
                (Bot.mkWorld
                   (AddressBook.mk
                      [("Bob"%string,
                        Rec.mk (mkField "Bob") [mkField "1111111111"] None)])
                   Scenario.today [] [] None)
                ["Bob"; "n/a"]%string)))
             "Bob" "n/a"
             (Rec.mk (mkField "Bob") [mkField "1111111111"] None)
             (mkField "1111111111"))%string.
    + reflexivity.
    + reflexivity.
    + reflexivity.
Defined.

Lemma input_run (prompt : string) (w : Bot.World) :
  Bot.input prompt w
  = match Bot.stdin w with
    | [] => (Raise (Exn EOFError LibraryText), Shown.after w [] [prompt])
    | line :: rest => (Ok line, Shown.after w rest [prompt])
    end.
Proof.
  unfold Bot.input, Shown.after. destruct (Bot.stdin w); reflexivity.
Qed.

(** What [change] does for a contact with several phones. *)
Lemma change_contact_asks (w : Bot.World) (name new : string) (record : Rec.t)
    (p1 p2 : Field string) (more : list (Field string)) :
  Dict.get name (AddressBook.data (Bot.book w)) = Some record ->
  Rec.phones record = p1 :: p2 :: more ->
  Bot.change_contact [name; new] w
  = match Bot.stdin w with
    | [] =>
        (Raise (Exn EOFError LibraryText),
         Shown.after w [] (Shown.asked name (Rec.phones record)))
    | answer :: rest =>
        let w1 := Shown.after w rest (Shown.asked name (Rec.phones record)) in
        match Str.int answer with
        | None => (Raise (Exn ValueError LibraryText), w1)
        | Some key =>
            match Bot.index (Rec.phones record) key with
            | Raise e => (Raise e, w1)
            | Ok ph =>
                (Ok (Shown.replaced (value ph) new),
                 Bot.with_book w1
                   (AddressBook.mk
                      (Dict.set name
                         (snd (Rec.edit_phone (value ph) new record))
                         (AddressBook.data (Bot.book w)))))
            end
        end
    end.
Proof.
  intros G P. unfold Bot.change_contact.
  unfold bind at 1. rewrite on_book_find, G.
  assert (M : forall (A : Type) (a b : Field string -> A) (c : A),
             match Rec.phones record with
             | [] => c
             | [ph] => a ph
             | _ :: _ :: _ => c
             end = c) by (intros; now rewrite P).
  assert (E : forall (A : Type) (x y : A) (z : Field string -> A),
             match Rec.phones record with
             | [] => x
             | [ph] => z ph
             | _ :: _ :: _ => y
             end = y) by (intros; now rewrite P).
  clear M. rewrite E. clear E.
  unfold bind at 1. unfold bind at 1. unfold bind at 1.
  rewrite print_run. rewrite print_phones_run.
  unfold bind at 1. rewrite input_run.
  replace (Bot.stdin (Shown.after (Shown.after w (Bot.stdin w)
             [("The contact " ++ name ++ " has following phones:")%string])
             (Bot.stdin (Shown.after w (Bot.stdin w)
                [("The contact " ++ name ++ " has following phones:")%string]))
             (Shown.numbered 0 (Rec.phones record))))
    with (Bot.stdin w) by reflexivity.
  destruct (Bot.stdin w) as [|answer rest]; rewrite !after_after;
    [reflexivity|].
  cbv zeta.
  destruct (Str.int answer) as [key|]; [|reflexivity].
  unfold bind at 1. unfold lift at 1.
  destruct (Bot.index (Rec.phones record) key) as [ph|e] eqn:I; [|reflexivity].
  unfold bind, ret, Bot.on_book, Bot.on_record.
  cbn [Shown.after Bot.book]. rewrite G.
  pose proof (edit_phone_of_member record ph new (index_In _ _ _ I)) as E.
  destruct (Rec.edit_phone (value ph) new record) as [r record'].
  simpl in E. subst r. reflexivity.
Qed.
End Commands.

(** ** Which commands can end the loop *)

Section Crashes.

Import Datetime.

Lemma edit_first_at (new : string) (l : list (Field string)) :
  NoDup (map value l) ->
  forall (k : nat) (ph : Field string),
    nth_error l k = Some ph ->
    Rec.edit_first (value ph) new l
    = Some (firstn k l ++ mkField new :: skipn (S k) l).
Proof.
  induction l as [|p l IH]; intros U k ph H.
  - destruct k; discriminate H.
  - inversion U as [|? ? N U']; subst. destruct k as [|k]; simpl in H.
    + injection H as <-. simpl. now rewrite String.eqb_refl.
    + simpl. destruct (String.eqb_spec (value p) (value ph)) as [E|E].
      * exfalso. apply N. rewrite E. apply in_map.
        exact (nth_error_In _ _ H).
      * now rewrite (IH U' k ph H).
Qed.

(** X16.  [change] for a contact with several phones writes them with
    their numbers and reads a line.  When the line is the number of a
    phone and the phones are distinct, the phone of that number is the one
    the new text is written over; the others keep their places. *)
Theorem change_contact_choice (w : Bot.World) (name new answer : string)
    (rest : list string) (record : Rec.t) (key : Z) (ph : Field string) :
  Dict.get name (AddressBook.data (Bot.book w)) = Some record ->
  (2 <= List.length (Rec.phones record))%nat ->
  NoDup (Rec.phone_values record) ->
  Bot.stdin w = answer :: rest ->
  Str.int answer = Some key ->
  0 <= key ->
  nth_error (Rec.phones record) (Z.to_nat key) = Some ph ->
  Bot.handle (Bot.change_contact [name; new]) w
  = (Ok (Shown.replaced (value ph) new),
     Bot.with_book
       (Shown.after w rest (Shown.asked name (Rec.phones record)))
       (AddressBook.mk
          (Dict.set name
             (Rec.with_phones record
                (firstn (Z.to_nat key) (Rec.phones record)
                 ++ mkField new :: skipn (S (Z.to_nat key)) (Rec.phones record)))
             (AddressBook.data (Bot.book w))))).
Proof.
  intros G L U I A K N. rewrite handle_run.
  destruct (Rec.phones record) as [|p1 [|p2 more]] eqn:P;
    [simpl in L; lia | simpl in L; lia | clear L].
  rewrite (change_contact_asks w name new record p1 p2 more G P).
  rewrite I. cbv zeta. rewrite A, P.
  assert (X : Bot.index (p1 :: p2 :: more) key = Ok ph).
  { unfold Bot.index.
    assert (B : (Z.to_nat key < List.length (p1 :: p2 :: more))%nat)
      by (apply nth_error_Some; congruence).
    destruct (Z.ltb_spec key 0) as [?|_]; [lia|].
    destruct (Z.leb_spec 0 key) as [_|?]; [|lia].
    destruct (Z.ltb_spec key (Z.of_nat (List.length (p1 :: p2 :: more))))
      as [_|?]; [|lia].
    simpl andb. cbv iota. now rewrite N. }
  rewrite X. unfold Rec.edit_phone. rewrite P.
  unfold Rec.phone_values in U. rewrite P in U.
  rewrite (edit_first_at new _ U _ _ N). reflexivity.
Qed.

Lemma change_contact_choice_witness :
  Bot.handle (Bot.change_contact ["Bob"; "n/a"]%string)
    (Bot.mkWorld
       (AddressBook.mk
          [("Bob"%string,
            Rec.mk (mkField "Bob")
              [mkField "1111111111"; mkField "2222222222"] None)])
       Scenario.today ["1"%string] [] None)
  = (Ok (Shown.replaced "2222222222" "n/a"),
     Bot.mkWorld
       (AddressBook.mk
          [("Bob"%string,
            Rec.mk (mkField "Bob") [mkField "1111111111"; mkField "n/a"] None)])
       Scenario.today []
       ["The contact Bob has following phones:"; "0: 1111111111";
        "1: 2222222222"; "Choose the number of phone to edit (0, 1): "]%string
       None).
Proof.
  apply (change_contact_choice
           (Bot.mkWorld
              (AddressBook.mk
                 [("Bob"%string,
                   Rec.mk (mkField "Bob")
                     [mkField "1111111111"; mkField "2222222222"] None)])
              Scenario.today ["1"%string] [] None)
           "Bob" "n/a" "1" []
           (Rec.mk (mkField "Bob")
              [mkField "1111111111"; mkField "2222222222"] None)
           1 (mkField "2222222222")).
  - reflexivity.
  - simpl. lia.
  - simpl. constructor; [intros [E|[]]; discriminate E|].
    constructor; [intros []|constructor].
  - reflexivity.
  - reflexivity.
  - lia.
  - reflexivity.
Defined.

(** What [change] does when it raises. *)
Lemma change_contact_crash (w w' : Bot.World) (args : list string) (e : exn) :
  Bot.handle (Bot.change_contact args) w = (Raise e, w') ->
  exists name new,
    args = [name; new] /\ Turn.several_phones (Bot.book w) name
    /\ Bot.stdin w = [] /\ e = Exn EOFError LibraryText
    /\ exists record,
         Dict.get name (AddressBook.data (Bot.book w)) = Some record
         /\ w' = Shown.after w [] (Shown.asked name (Rec.phones record)).
Proof.
  rewrite handle_run.
  destruct args as [|name [|new [|x args]]]; try discriminate.
  destruct (Dict.get name (AddressBook.data (Bot.book w))) as [record|] eqn:G.
  - destruct (Rec.phones record) as [|p1 [|p2 more]] eqn:P.
    + unfold Bot.change_contact. unfold bind at 1.
      rewrite on_book_find, G, P. discriminate.
    + unfold Bot.change_contact. unfold bind at 1.
      rewrite on_book_find, G, P.
      unfold bind, ret, Bot.on_book, Bot.on_record. rewrite G.
      unfold Rec.edit_phone. rewrite P. cbn [Rec.edit_first].
      rewrite String.eqb_refl. discriminate.
    + rewrite (change_contact_asks w name new record p1 p2 more G P).
      destruct (Bot.stdin w) as [|answer rest].
      * intros H. injection H as <- <-. exists name, new.
        unfold Turn.several_phones. rewrite G, P. cbn [List.length].
        repeat split; [lia|]. exists record. rewrite P. auto.
      * cbv zeta. destruct (Str.int answer) as [key|]; [|discriminate].
        destruct (Bot.index (Rec.phones record) key) as [ph|x] eqn:I;
          [discriminate|].
        rewrite (index_raises _ _ _ I). discriminate.
  - unfold Bot.change_contact. unfold bind at 1.
    rewrite on_book_find, G. discriminate.
Qed.

Lemma change_contact_eof (w : Bot.World) (name new : string) :
  Turn.several_phones (Bot.book w) name -> Bot.stdin w = [] ->
  exists w',
    Bot.handle (Bot.change_contact [name; new]) w
    = (Raise (Exn EOFError LibraryText), w').
Proof.
  intros S I. unfold Turn.several_phones in S.
  destruct (Dict.get name (AddressBook.data (Bot.book w))) as [record|] eqn:G;
    [|contradiction].
  destruct (Rec.phones record) as [|p1 [|p2 more]] eqn:P;
    [simpl in S; lia|simpl in S; lia|].
  rewrite handle_run.
  rewrite (change_contact_asks w name new record p1 p2 more G P), I.
  eexists. reflexivity.
Qed.

(** X17.  [change] raises exactly when it is given two arguments, the
    contact has several phones and no line is left to read after it has
    asked for the number of one: the exception is then [EOFError], which
    [input_error] lets through. *)
Theorem change_contact_raises (w : Bot.World) (args : list string) (e : exn) :
  (exists w', Bot.handle (Bot.change_contact args) w = (Raise e, w'))
  <-> exists name new,
        args = [name; new] /\ Turn.several_phones (Bot.book w) name
        /\ Bot.stdin w = [] /\ e = Exn EOFError LibraryText.
Proof.
  split.
  - intros [w' H].
    apply change_contact_crash in H as (name & new & A & S & I & E & _).
    exists name, new. auto.
  - intros (name & new & -> & S & I & ->). now apply change_contact_eof.
Qed.

Lemma change_contact_raises_witness :
  exists w',
    Bot.handle (Bot.change_contact ["Bob"; "n/a"]%string)
      (Bot.mkWorld
         (AddressBook.mk
            [("Bob"%string,
              Rec.mk (mkField "Bob")
                [mkField "1111111111"; mkField "2222222222"] None)])
         Scenario.today [] [] None)
    = (Raise (Exn EOFError LibraryText), w').
Proof.
  apply (proj2 (change_contact_raises _ _ _)).
  exists "Bob"%string, "n/a"%string. repeat split.
  unfold Turn.several_phones. simpl. lia.
Defined.

Lemma upcoming_outcome (today : date) (book : AddressBook.t) :
  (exists bdays,
     AddressBook.get_upcoming_birthdays today book = (Ok bdays, book))
  \/ AddressBook.get_upcoming_birthdays today book
     = (Raise (Exn ValueError LibraryText), book).
Proof.
  rewrite get_upcoming_birthdays_loop.
  destruct (AddressBook.upcoming_loop today _ [] book) as [r book'] eqn:L.
  apply upcoming_loop_spec in L as [-> R]. destruct r as [bdays|e].
  - left. eauto.
  - right. destruct R as (k & K & [[N _]|(record & G & E)]).
    + apply get_keys in K as [v K]. congruence.
    + apply entry_no_candidate in E as [-> _]. reflexivity.
Qed.

Lemma Birthday_raises (s : string) (e : exn) :
  Birthday s = Raise e -> e = Exn ValueError (Message invalid_date_message).
Proof.
  unfold Birthday. destruct (strptime_dmY s) as [v|x] eqn:P; [discriminate|].
  rewrite (strptime_raises s x P). congruence.
Qed.

Lemma add_contact_only_ValueError (args : list string) (w w' : Bot.World)
    (e : exn) :
  Bot.add_contact args w = (Raise e, w') -> exn_cls e = ValueError.
Proof.
  unfold Bot.add_contact.
  destruct args as [|name [|phone rest]];
    try (intros H; injection H as <- _; reflexivity).
  unfold bind at 1. rewrite on_book_find.
  destruct (Dict.get name (AddressBook.data (Bot.book w))) as [record|] eqn:G.
  - unfold bind at 1. unfold ret at 1.
    destruct phone as [|c phone]; [discriminate|].
    unfold bind, ret, Bot.on_book, Bot.on_record. rewrite G.
    unfold Rec.add_phone.
    destruct (Rec.present (String c phone) (Rec.phones record)); [discriminate|].
    destruct (Phone_outcome (String c phone)) as [E|E]; rewrite E;
      [discriminate|].
    intros H. injection H as <- _. reflexivity.
  - unfold bind at 1. unfold bind at 1. unfold lift.
    destruct name as [|a name].
    { simpl. intros H. injection H as <- _. reflexivity. }
    rewrite init_named by discriminate.
    unfold bind, ret, Bot.on_book, AddressBook.add_record. simpl value.
    destruct phone as [|c phone]; [discriminate|].
    unfold Bot.on_record. cbn [Bot.book Bot.with_book AddressBook.data].
    rewrite get_set, String.eqb_refl.
    unfold Rec.add_phone. cbn [Rec.phones Rec.present].
    destruct (Phone_outcome (String c phone)) as [E|E]; rewrite E;
      [discriminate|].
    intros H. injection H as <- _. reflexivity.
Qed.

Lemma show_birthday_run (args : list string) (w : Bot.World) :
  Bot.handle (Bot.show_birthday args) w
  = match args with
    | [] => (Ok Bot.msg_IndexError, w)
    | name :: _ =>
        match Dict.get name (AddressBook.data (Bot.book w)) with
        | Some record =>
            match Rec.birthday record with
            | Some b => (Ok (strftime_dmY (date_of (value b))), w)
            | None => (Raise (Exn AttributeError LibraryText), w)
            end
        | None => (Raise (Exn AttributeError LibraryText), w)
        end
    end.
Proof.
  rewrite handle_run. unfold Bot.show_birthday.
  destruct args as [|name rest]; [reflexivity|].
  unfold bind. rewrite on_book_find.
  destruct (Dict.get name (AddressBook.data (Bot.book w))) as [record|];
    [|reflexivity].
  destruct (Rec.birthday record); reflexivity.
Qed.

Lemma parse_input_run (line : string) (w : Bot.World) :
  exists r,
    Bot.input_error (Bot.parse_input line) w = (Ok r, w)
    /\ Bot.unpack r = Ok (Turn.parsed line).
Proof.
  unfold Bot.input_error, Bot.parse_input, Turn.parsed.
  destruct (Str.split line) as [|cmd args]; eexists; split; reflexivity.
Qed.

Lemma add_contact_returns (args : list string) (w : Bot.World) :
  exists text w', Bot.handle (Bot.add_contact args) w = (Ok text, w').
Proof.
  rewrite handle_run.
  destruct (Bot.add_contact args w) as [[text|e] w'] eqn:H; [eauto|].
  apply add_contact_only_ValueError in H. destruct e as [c i].
  simpl in H. subst c. eauto.
Qed.

Lemma show_contact_returns (args : list string) (w : Bot.World) :
  exists text, Bot.handle (Bot.show_contact args) w = (Ok text, w).
Proof.
  rewrite handle_run. unfold Bot.show_contact.
  destruct args as [|name rest]; [eexists; reflexivity|].
  unfold bind. rewrite on_book_find.
  destruct (Dict.get name _); eexists; reflexivity.
Qed.

Lemma show_all_returns (w : Bot.World) :
  exists text, Bot.handle Bot.show_all w = (Ok text, w).
Proof.
  rewrite handle_run. unfold Bot.show_all, bind, get.
  destruct (AddressBook.data (Bot.book w)); eexists; reflexivity.
Qed.

Lemma add_birthday_returns (args : list string) (w : Bot.World) :
  exists text w', Bot.handle (Bot.add_birthday args) w = (Ok text, w').
Proof.
  rewrite handle_run. unfold Bot.add_birthday.
  destruct args as [|name [|birthday [|x rest]]]; try (do 2 eexists; reflexivity).
  unfold bind at 1. rewrite on_book_find.
  destruct (Dict.get name _) as [record|] eqn:G;
    [|do 2 eexists; reflexivity].
  unfold bind, ret, Bot.on_book, Bot.on_record. rewrite G.
  unfold Rec.add_birthday.
  destruct (Birthday birthday) as [b|e] eqn:B; [do 2 eexists; reflexivity|].
  rewrite (Birthday_raises _ _ B). do 2 eexists; reflexivity.
Qed.

Lemma birthdays_returns (w : Bot.World) :
  exists text, Bot.handle Bot.birthdays w = (Ok text, w).
Proof.
  rewrite handle_run. unfold Bot.birthdays, bind, get, Bot.on_book.
  destruct (upcoming_outcome (Bot.clock w) (Bot.book w)) as [[bdays H]|H];
    rewrite H, with_book_same.
  - destruct bdays; eexists; reflexivity.
  - eexists; reflexivity.
Qed.

(** X18.  The handlers of [add], [phone], [all], [add-birthday] and
    [birthdays], wrapped by [input_error], always return an answer,
    whatever the arguments and the book, and so does [parse_input]; those
    of [phone], [all] and [birthdays], and [parse_input], change nothing. *)
Theorem handlers_return (w : Bot.World) (args : list string) (line : string) :
  (exists text w', Bot.handle (Bot.add_contact args) w = (Ok text, w'))
  /\ (exists text, Bot.handle (Bot.show_contact args) w = (Ok text, w))
  /\ (exists text, Bot.handle Bot.show_all w = (Ok text, w))
  /\ (exists text w', Bot.handle (Bot.add_birthday args) w = (Ok text, w'))
  /\ (exists text, Bot.handle Bot.birthdays w = (Ok text, w))
  /\ (exists r, Bot.input_error (Bot.parse_input line) w = (Ok r, w)).
Proof.
  repeat split.
  - apply add_contact_returns.
  - apply show_contact_returns.
  - apply show_all_returns.
  - apply add_birthday_returns.
  - apply birthdays_returns.
  - destruct (parse_input_run line w) as (r & H & _). eauto.
Qed.

Lemma answered_run (h : M Bot.World string) (w : Bot.World) :
  bind (Bot.handle h) (fun t => bind (Bot.print t) (fun _ => ret true)) w
  = Turn.answered (Bot.handle h w).
Proof.
  unfold bind at 1. unfold Turn.answered.
  destruct (Bot.handle h w) as [[text|e] w']; reflexivity.
Qed.

(** One turn of the loop, the reading done. *)
Lemma turn_run (w : Bot.World) :
  Bot.turn w
  = match Bot.stdin w with
    | [] =>
        (Raise (Exn EOFError LibraryText),
         Shown.after w [] ["Enter a command: "%string])
    | line :: rest =>
        let w1 := Shown.after w rest ["Enter a command: "%string] in
        let '(command, args) := Turn.parsed line in
        if ((command =? "close") || (command =? "exit"))%string then
          (Ok false,
           Bot.mkWorld (Bot.book w) (Bot.clock w) rest
             (Bot.stdout w ++ ["Enter a command: "; "Good bye!"]%string)
             (Some (Bot.Pickle (Bot.book w))))
        else if (command =? "hello")%string then
          (Ok true,
           Shown.after w rest ["Enter a command: "; "How can I help you?"]%string)
        else if (command =? "add")%string then
          Turn.answered (Bot.handle (Bot.add_contact args) w1)
        else if (command =? "change")%string then
          Turn.answered (Bot.handle (Bot.change_contact args) w1)
        else if (command =? "phone")%string then
          Turn.answered (Bot.handle (Bot.show_contact args) w1)
        else if (command =? "all")%string then
          Turn.answered (Bot.handle Bot.show_all w1)
        else if (command =? "add-birthday")%string then
          Turn.answered (Bot.handle (Bot.add_birthday args) w1)
        else if (command =? "show-birthday")%string then
          Turn.answered (Bot.handle (Bot.show_birthday args) w1)
        else if (command =? "birthdays")%string then
          Turn.answered (Bot.handle Bot.birthdays w1)
        else
          (Ok true,
           Shown.after w rest ["Enter a command: "; "Invalid command"]%string)
    end.
Proof.
  unfold Bot.turn. unfold bind at 1. rewrite input_run.
  destruct (Bot.stdin w) as [|line rest]; [reflexivity|].
  cbv zeta. unfold bind at 1.
  destruct (parse_input_run line (Shown.after w rest ["Enter a command: "%string]))
    as (r & -> & U).
  unfold bind at 1. unfold lift at 1. rewrite U.
  destruct (Turn.parsed line) as [command args].
  repeat match goal with
         | |- (if ?b then _ else _) _ = (if ?b then _ else _) =>
             destruct b; [try (rewrite answered_run; reflexivity)|]
         end.
  - unfold bind, Bot.print, Bot.save_data, ret, Shown.after. simpl.
    now rewrite <- app_assoc.
  - unfold bind, Bot.print, ret, Shown.after. simpl. now rewrite <- app_assoc.
  - unfold bind, Bot.print, ret, Shown.after. simpl. now rewrite <- app_assoc.
Qed.
End Crashes.

(** ** What a session leaves as it is, and how it ends *)

Section Sessions.

Import Datetime.

Lemma extends_refl (w : Bot.World) : Frame.extends w w.
Proof.
  repeat split; [exists []; now rewrite app_nil_r|exists []; reflexivity].
Qed.

Lemma extends_trans (w1 w2 w3 : Bot.World) :
  Frame.extends w1 w2 -> Frame.extends w2 w3 -> Frame.extends w1 w3.
Proof.
  intros (F1 & C1 & [o1 O1] & [i1 I1]) (F2 & C2 & [o2 O2] & [i2 I2]).
  repeat split; try congruence.
  - exists (o1 ++ o2). now rewrite O2, O1, app_assoc.
  - exists (i1 ++ i2). now rewrite I1, I2, app_assoc.
Qed.

Lemma framed_ret {A} (a : A) : Frame.framed (ret a).
Proof. intros w o w' H. injection H as <- <-. apply extends_refl. Qed.

Lemma framed_raise {A} (e : exn) : Frame.framed (@raise Bot.World A e).
Proof. intros w o w' H. injection H as <- <-. apply extends_refl. Qed.

Lemma framed_lift {A} (x : outcome A) : Frame.framed (lift x).
Proof. intros w o w' H. injection H as <- <-. apply extends_refl. Qed.

Lemma framed_get : Frame.framed get.
Proof. intros w o w' H. injection H as <- <-. apply extends_refl. Qed.

Lemma framed_bind {A B} (m : M Bot.World A) (k : A -> M Bot.World B) :
  Frame.framed m -> (forall a, Frame.framed (k a)) -> Frame.framed (bind m k).
Proof.
  intros Hm Hk w o w'. unfold bind.
  destruct (m w) as [[a|e] w1] eqn:E; intros H.
  - eapply extends_trans; [apply (Hm _ _ _ E)|apply (Hk a _ _ _ H)].
  - injection H as <- <-. apply (Hm _ _ _ E).
Qed.

Lemma framed_on_book {A} (m : M AddressBook.t A) : Frame.framed (Bot.on_book m).
Proof.
  intros w o w'. unfold Bot.on_book. destruct (m (Bot.book w)) as [r b].
  intros H. injection H as <- <-.
  repeat split; [exists []; simpl; now rewrite app_nil_r|exists []; reflexivity].
Qed.

Lemma framed_print (line : string) : Frame.framed (Bot.print line).
Proof.
  intros w o w' H. injection H as <- <-.
  repeat split; [exists [line]; reflexivity|exists []; reflexivity].
Qed.

Lemma framed_input (prompt : string) : Frame.framed (Bot.input prompt).
Proof.
  intros w o w'. unfold Bot.input.
  destruct (Bot.stdin w) as [|line rest] eqn:I; intros H; injection H as <- <-;
    repeat split; simpl; try (exists [prompt]; reflexivity).
  - exists []. now rewrite I.
  - exists [line]. now rewrite I.
Qed.

Lemma framed_print_phones (phones : list (Field string)) :
  forall i, Frame.framed (Bot.print_phones i phones).
Proof.
  induction phones as [|number rest IH]; intros i.
  - apply framed_ret.
  - apply framed_bind; [apply framed_print|intros _; apply IH].
Qed.

Lemma framed_handle (h : M Bot.World string) :
  Frame.framed h -> Frame.framed (Bot.handle h).
Proof.
  intros Hh w o w'. rewrite handle_run.
  destruct (h w) as [[text|[c i]] w1] eqn:E; [|destruct c]; intros H;
    injection H as <- <-; apply (Hh _ _ _ E).
Qed.

Ltac frame :=
  repeat first
    [ apply framed_ret | apply framed_raise | apply framed_lift
    | apply framed_get | apply framed_on_book | apply framed_print
    | apply framed_input | apply framed_print_phones
    | apply framed_bind; [|intros ?]
    | match goal with
      | |- Frame.framed (match ?x with _ => _ end) => destruct x
      end ].

Lemma framed_add_contact (args : list string) :
  Frame.framed (Bot.add_contact args).
Proof. unfold Bot.add_contact. frame. Qed.

Lemma framed_change_contact (args : list string) :
  Frame.framed (Bot.change_contact args).
Proof. unfold Bot.change_contact. frame. Qed.

Lemma framed_show_contact (args : list string) :
  Frame.framed (Bot.show_contact args).
Proof. unfold Bot.show_contact. frame. Qed.

Lemma framed_show_all : Frame.framed Bot.show_all.
Proof. unfold Bot.show_all. frame. Qed.

Lemma framed_add_birthday (args : list string) :
  Frame.framed (Bot.add_birthday args).
Proof. unfold Bot.add_birthday. frame. Qed.

Lemma framed_show_birthday (args : list string) :
  Frame.framed (Bot.show_birthday args).
Proof. unfold Bot.show_birthday. frame. Qed.

Lemma framed_birthdays : Frame.framed Bot.birthdays.
Proof. unfold Bot.birthdays. frame. Qed.








Lemma extends_after (w : Bot.World) (line : string) (rest written : list string) :
  Bot.stdin w = line :: rest -> Frame.extends w (Shown.after w rest written).
Proof.
  intros I. repeat split; [exists written; reflexivity|].
  exists [line]. now rewrite I.
Qed.

Lemma answered_step (h : M Bot.World string) (w w1 w' : Bot.World)
    (o : outcome bool) :
  Frame.framed h -> Frame.extends w w1 ->
  Turn.answered (Bot.handle h w1) = (o, w') ->
  o <> Ok false /\ Frame.extends w w'.
Proof.
  intros F E1. pose proof (framed_handle h F w1) as Fh.
  destruct (Bot.handle h w1) as [[text|e] w2]; intros H; injection H as <- <-.
  - split; [discriminate|].
    apply (extends_trans w w1); [exact E1|].
    apply (extends_trans w1 w2); [apply (Fh _ _ eq_refl)|].
    repeat split; [exists [text]; reflexivity|exists []; reflexivity].
  - split; [discriminate|].
    apply (extends_trans w w1); [exact E1|apply (Fh _ _ eq_refl)].
Qed.

(** A turn either is the last one, at [close] or [exit], and leaves the
    book in the file, or leaves the file as it was. *)
Lemma turn_step (w w' : Bot.World) (o : outcome bool) :
  Bot.turn w = (o, w') ->
  (o = Ok false /\ Bot.book w' = Bot.book w
   /\ Bot.file w' = Some (Bot.Pickle (Bot.book w)))
  \/ (o <> Ok false /\ Frame.extends w w').
Proof.
  rewrite turn_run. destruct (Bot.stdin w) as [|line rest] eqn:I.
  { intros H. injection H as <- <-. right. split; [discriminate|].
    repeat split; [eexists; reflexivity|exists []; now rewrite I]. }
  pose proof (extends_after w line rest ["Enter a command: "%string] I) as E1.
  cbv zeta. destruct (Turn.parsed line) as [command args].
  destruct ((command =? "close") || (command =? "exit"))%string.
  { intros H. injection H as <- <-. left. auto. }
  destruct (command =? "hello")%string.
  { intros H. injection H as <- <-. right. split; [discriminate|].
    now apply (extends_after w line). }
  destruct (command =? "add")%string.
  { intros H. right. revert H. apply answered_step;
      [apply framed_add_contact|exact E1]. }
  destruct (command =? "change")%string.
  { intros H. right. revert H. apply answered_step;
      [apply framed_change_contact|exact E1]. }
  destruct (command =? "phone")%string.
  { intros H. right. revert H. apply answered_step;
      [apply framed_show_contact|exact E1]. }
  destruct (command =? "all")%string.
  { intros H. right. revert H. apply answered_step;
      [apply framed_show_all|exact E1]. }
  destruct (command =? "add-birthday")%string.
  { intros H. right. revert H. apply answered_step;
      [apply framed_add_birthday|exact E1]. }
  destruct (command =? "show-birthday")%string.
  { intros H. right. revert H. apply answered_step;
      [apply framed_show_birthday|exact E1]. }
  destruct (command =? "birthdays")%string.
  { intros H. right. revert H. apply answered_step;
      [apply framed_birthdays|exact E1]. }
  intros H. injection H as <- <-. right. split; [discriminate|].
  now apply (extends_after w line).
Qed.

Lemma loop_step (n : nat) :
  forall (w w' : Bot.World) (o : outcome bool),
    Bot.loop n w = (o, w') ->
    (o = Ok false /\ Bot.file w' = Some (Bot.Pickle (Bot.book w')))
    \/ (o <> Ok false /\ Frame.extends w w').
Proof.
  induction n as [|n IH]; intros w w' o.
  - intros H. injection H as <- <-. right.
    split; [discriminate|apply extends_refl].
  - cbn [Bot.loop]. unfold bind at 1.
    destruct (Bot.turn w) as [[[|]|e] w1] eqn:T; intros H.
    + apply turn_step in T as [(T & _)|(_ & E1)]; [discriminate|].
      apply IH in H as [H|(N & E2)]; [left; exact H|].
      right. split; [exact N|]. now apply (extends_trans w w1).
    + injection H as <- <-. left. split; [reflexivity|].
      apply turn_step in T as [(_ & B & F)|(N & _)]; [congruence|].
      now elim N.
    + injection H as <- <-. right. split; [discriminate|].
      apply turn_step in T as [(T & _)|(_ & E1)]; [discriminate|exact E1].
Qed.


(** [main], the file read. *)
Lemma main_run (n : nat) (w : Bot.World) :
  Bot.main n w
  = let started b :=
      Bot.loop n
        (Bot.mkWorld b (Bot.clock w) (Bot.stdin w)
           (Bot.stdout w ++ ["Welcome to the assistant bot!"%string])
           (Bot.file w)) in
    match Bot.file w with
    | Some (Bot.Pickle b) => started b
    | Some (Bot.Unreadable e) => (Raise e, w)
    | None => started AddressBook.empty
    end.
Proof.
  unfold Bot.main, bind, Bot.load_data, Bot.set_book, Bot.print.
  destruct (Bot.file w) as [[b|e]|] eqn:F; unfold Bot.with_book;
    cbn [Bot.book Bot.clock Bot.stdin Bot.stdout Bot.file]; now rewrite ?F.
Qed.

Lemma extends_started (w : Bot.World) (b : AddressBook.t) :
  Frame.extends w
    (Bot.mkWorld b (Bot.clock w) (Bot.stdin w)
       (Bot.stdout w ++ ["Welcome to the assistant bot!"%string])
       (Bot.file w)).
Proof.
  repeat split; [eexists; reflexivity|exists []; reflexivity].
Qed.

(** X20.  The file is written at [close] and [exit] and never else: a
    session that ends there leaves in the file the book it ended with, so
    that [load_data] then returns that book wherever the file is found as
    it was left; a session that ends otherwise, by an exception or with
    lines still to read, leaves the file as it found it, so that the
    changes made to the book are not kept. *)
Theorem main_saves_at_exit (n : nat) (w w' : Bot.World) (o : outcome bool) :
  Bot.main n w = (o, w') ->
  (o = Ok false
   /\ Bot.file w' = Some (Bot.Pickle (Bot.book w'))
   /\ forall later,
        Bot.file later = Bot.file w' ->
        Bot.load_data later = (Ok (Bot.book w'), later))
  \/ (o <> Ok false /\ Frame.extends w w').
Proof.
  rewrite main_run. cbv zeta.
  assert (S : forall b,
             Bot.loop n
               (Bot.mkWorld b (Bot.clock w) (Bot.stdin w)
                  (Bot.stdout w ++ ["Welcome to the assistant bot!"%string])
                  (Bot.file w)) = (o, w') ->
             (o = Ok false
              /\ Bot.file w' = Some (Bot.Pickle (Bot.book w'))
              /\ forall later,
                   Bot.file later = Bot.file w' ->
                   Bot.load_data later = (Ok (Bot.book w'), later))
             \/ (o <> Ok false /\ Frame.extends w w')).
  { intros b H. apply loop_step in H as [(E & F)|(N & E)].
    - left. repeat split; auto.
      intros later L. unfold Bot.load_data. now rewrite L, F.
    - right. split; [exact N|].
      exact (extends_trans w _ w' (extends_started w b) E). }
  destruct (Bot.file w) as [[b|e]|]; [apply S| |apply S].
  intros H. injection H as <- <-. right.
  split; [discriminate|apply extends_refl].
Qed.

Lemma main_saves_at_exit_witness :
  exists w',
    Bot.main 3 (Scenario.session ["add Bob 1234567890"; "EXIT"]%string)
    = (Ok false, w')
    /\ Bot.file w' = Some (Bot.Pickle (Bot.book w')).
Proof.
  set (b := AddressBook.mk
              [("Bob"%string,
                Rec.mk (mkField "Bob"%string) [mkField "1234567890"%string]
                  None)]).
  exists (Bot.mkWorld b Scenario.today []
            ["Welcome to the assistant bot!"; "Enter a command: ";
             "Contact added."; "Enter a command: "; "Good bye!"]%string
            (Some (Bot.Pickle b))).
  assert (H : Bot.main 3
                (Scenario.session ["add Bob 1234567890"; "EXIT"]%string)
              = (Ok false,
                 Bot.mkWorld b Scenario.today []
                   ["Welcome to the assistant bot!"; "Enter a command: ";
                    "Contact added."; "Enter a command: "; "Good bye!"]%string
                   (Some (Bot.Pickle b)))) by (vm_compute; reflexivity).
  split; [exact H|].
  destruct (main_saves_at_exit 3 _ _ _ H) as [(_ & F & _)|(N & _)].
  - exact F.
  - now elim N.
Defined.



(** X22.  No handler writes the file or changes the day; what a handler
    prints comes after what was written, and the lines it reads are taken
    from the front of the lines to read. *)
Theorem handlers_framed (args : list string) :
  Frame.framed (Bot.handle (Bot.add_contact args))
  /\ Frame.framed (Bot.handle (Bot.change_contact args))
  /\ Frame.framed (Bot.handle (Bot.show_contact args))
  /\ Frame.framed (Bot.handle Bot.show_all)
  /\ Frame.framed (Bot.handle (Bot.add_birthday args))
  /\ Frame.framed (Bot.handle (Bot.show_birthday args))
  /\ Frame.framed (Bot.handle Bot.birthdays).
Proof.
  repeat apply conj; apply framed_handle.
  - apply framed_add_contact.
  - apply framed_change_contact.
  - apply framed_show_contact.
  - apply framed_show_all.
  - apply framed_add_birthday.
  - apply framed_show_birthday.
  - apply framed_birthdays.
Qed.

Lemma handlers_framed_witness :
  Frame.extends
    (Bot.mkWorld
       (AddressBook.mk
          [("Bob"%string,
            Rec.mk (mkField "Bob")
              [mkField "1111111111"; mkField "2222222222"] None)])
       Scenario.today ["1"; "all"]%string []
       (Some (Bot.Pickle AddressBook.empty)))
    (Bot.mkWorld
       (AddressBook.mk
          [("Bob"%string,
            Rec.mk (mkField "Bob")
              [mkField "1111111111"; mkField "3333333333"] None)])
       Scenario.today ["all"%string]
       ["The contact Bob has following phones:"; "0: 1111111111";
        "1: 2222222222"; "Choose the number of phone to edit (0, 1): "]%string
       (Some (Bot.Pickle AddressBook.empty))).
Proof.
  apply (proj1 (proj2 (handlers_framed ["Bob"; "3333333333"]%string)) _
           (Ok ("Contact updated successfully. Number 2222222222 "
                ++ "was replaced with 3333333333.")%string)).
  vm_compute. reflexivity.
Defined.


(** X23.  A date of birth given to [add-birthday] for a contact of the
    book, in any of the ways [strptime] reads a day and a month, is kept in
    the record as midnight of that day, and [show-birthday] then answers it
    with the day and the month on two digits. *)
Theorem add_birthday_show_birthday (w : Bot.World) (name : string)
    (record : Rec.t) (d m y : Z) (dtxt mtxt : string) :
  Dict.get name (AddressBook.data (Bot.book w)) = Some record ->
  Spec.day_text d dtxt -> Spec.month_text m mtxt ->
  Spec.real_date y m d = true -> 1000 <= y ->
  exists w',
    Bot.handle
      (Bot.add_birthday [name; (dtxt ++ "." ++ mtxt ++ "." ++ Str.pad4 y)%string])
      w
    = (Ok "Date of birth added."%string, w')
    /\ Dict.get name (AddressBook.data (Bot.book w'))
       = Some (Rec.with_birthday record (Some (mkField (Spec.midnight y m d))))
    /\ Bot.handle (Bot.show_birthday [name]) w'
       = (Ok (Str.pad2 d ++ "." ++ Str.pad2 m ++ "." ++ Str.pad4 y)%string, w').
Proof.
  intros G Td Tm R Y.
  rewrite handle_run. unfold Bot.add_birthday.
  unfold bind at 1. rewrite on_book_find, G.
  unfold bind, ret, Bot.on_book, Bot.on_record. rewrite G.
  unfold Rec.add_birthday, Birthday.
  rewrite (strptime_write d m y dtxt mtxt Td Tm R).
  eexists. split; [reflexivity|].
  rewrite show_birthday_run.
  cbn [Bot.book Bot.with_book AddressBook.data].
  rewrite get_set, String.eqb_refl. split; [reflexivity|].
  cbn [Rec.birthday Rec.with_birthday value date_of Spec.midnight dt_date].
  now rewrite (strftime_four_digits y m d Y).
Qed.

Lemma add_birthday_show_birthday_witness :
  exists w',
    Bot.handle (Bot.add_birthday ["Ann"; " 1.2.2000"]%string)
      (Bot.mkWorld (Scenario.book_of [Scenario.ann]) Scenario.today [] [] None)
    = (Ok "Date of birth added."%string, w')
    /\ Dict.get "Ann" (AddressBook.data (Bot.book w'))
       = Some (Rec.with_birthday Scenario.ann
                 (Some (mkField (Spec.midnight 2000 2 1))))
    /\ Bot.handle (Bot.show_birthday ["Ann"%string]) w'
       = (Ok "01.02.2000"%string, w').
Proof.
  apply (add_birthday_show_birthday
           (Bot.mkWorld (Scenario.book_of [Scenario.ann]) Scenario.today [] []
              None)
           "Ann" Scenario.ann 1 2 2000 " 1" "2").
  - reflexivity.
  - right. split; [lia|]. right. reflexivity.
  - right. split; [lia|]. reflexivity.
  - reflexivity.
  - lia.
Defined.


(** X24.  In a book of distinct names, [birthdays] answers the entries of
    the records, one line for each, or that there are none; but when a
    record has a birthday without candidate date, the [ValueError] of
    [replace] is caught by [input_error] and the answer is the message for
    wrong arguments.  The book is as it was. *)
Theorem birthdays_answer (w : Bot.World) :
  NoDup (Dict.keys (AddressBook.data (Bot.book w))) ->
  ((exists name record b,
      Dict.get name (AddressBook.data (Bot.book w)) = Some record
      /\ Rec.birthday record = Some b
      /\ Spec.candidate (Bot.clock w) (value b) = None)
   /\ Bot.handle Bot.birthdays w = (Ok Bot.msg_ValueError, w))
  \/ ((forall name record b,
         Dict.get name (AddressBook.data (Bot.book w)) = Some record ->
         Rec.birthday record = Some b ->
         Spec.candidate (Bot.clock w) (value b) <> None)
      /\ Bot.handle Bot.birthdays w
         = (Ok (Shown.upcoming
                  (Listing.entries (Bot.clock w)
                     (AddressBook.data (Bot.book w)))), w)).
Proof.
  intros U. rewrite handle_run. unfold Bot.birthdays, bind, get, Bot.on_book.
  rewrite get_upcoming_birthdays_loop.
  destruct (AddressBook.upcoming_loop (Bot.clock w) _ [] (Bot.book w))
    as [r book'] eqn:L.
  pose proof L as L'. apply upcoming_loop_spec in L' as [-> R].
  rewrite with_book_same. destruct r as [bdays|e].
  - right. split.
    + intros name record b G B C. destruct R as [R _].
      destruct (R name) as (record' & x & G' & E').
      { apply get_keys. eauto. }
      rewrite entry_candidate in E'.
      assert (record' = record) by congruence. subst record'.
      rewrite B, C in E'. discriminate E'.
    + assert (E : bdays
                  = [] ++ Listing.entries (Bot.clock w)
                            (AddressBook.data (Bot.book w))).
      { apply (upcoming_loop_listing (Bot.clock w) (Bot.book w)
                 (AddressBook.data (Bot.book w)) [] bdays (Bot.book w));
          auto.
        intros k v I. apply get_unique; assumption. }
      simpl in E. subst bdays.
      destruct (Listing.entries _ _); reflexivity.
  - left. destruct R as (k & K & [[N _]|(record & G & E)]).
    + apply get_keys in K as [v K]. congruence.
    + apply entry_no_candidate in E as [-> (b & B & C)].
      split; [|reflexivity]. exists k, record, b. auto.
Qed.

Lemma birthdays_answer_witness :
  Bot.handle Bot.birthdays
    (Bot.mkWorld (Scenario.book_of [Scenario.ann; Scenario.zed])
       Scenario.last_year [] [] None)
  = (Ok Bot.msg_ValueError,
     Bot.mkWorld (Scenario.book_of [Scenario.ann; Scenario.zed])
       Scenario.last_year [] [] None).
Proof.
  destruct (birthdays_answer
              (Bot.mkWorld (Scenario.book_of [Scenario.ann; Scenario.zed])
                 Scenario.last_year [] [] None)) as [[_ H]|[N _]].
  - simpl. constructor; [intros [E|[]]; discriminate E|].
    constructor; [intros []|constructor].
  - exact H.
  - exfalso.
    apply (N "Zed"%string Scenario.zed (mkField (Spec.midnight 2000 2 29)));
      reflexivity.
Defined.

End Sessions.
